(** * plaid-to-airtable: the reconciliation engine, the pagination fetcher,
      the auth-retry wrapper and the link broker's callback handlers

    A shallow embedding of the Go sources and the properties the
    specification states about them.  The models come first:

    - [GoTime]: the part of Go's [time] package that [updateAccount] calls.
    - [Airtable]: the records, [byAccountIDbyTransactionID] and the
      update-capable [updateAccount] (three plan sets, cutoff guard).
    - [AirtableV0]: the older [updateAccount] of airtable_transactions.go
      (two plan sets, update is delete + create, no cutoff).
    - [Plaid], [Fetcher]: the request and response types and
      [AllTransactions] against a stateful server.
    - [Retry]: [WithRelinkOnAuthError].
    - [Linker]: [handleLink] and [handleRelink] as the channel sends and
      writes they perform.
    - [Sample], [Feed]: concrete records, requests and servers.

    The lemmas about each model and the claims C1 to C10 follow. *)

From Stdlib Require Import ZArith String Ascii List Floats.PrimFloat.
From stdpp Require Import gmap strings list fin_maps sorting.

Local Open Scope Z_scope.
Set Warnings "-clear-no-such-hyp".

(** A Go call either returns or panics with an error value. *)
Inductive result (A : Type) : Type :=
  | Ok (a : A)
  | Panic (err : string).
Arguments Ok {A} a.
Arguments Panic {A} err.

(* ===================================================================== *)
(** ** Go's [time] package, as far as the engine uses it *)
(* ===================================================================== *)

Module GoTime.

(** What [Location.lookup(sec)] returns for an instant [sec] (seconds since
    the Unix epoch): the offset in force (seconds east of UTC) and the
    range of instants, [zoneStart] included and [zoneEnd] excluded, over
    which that zone is in force. *)
Record zone := { zoneOffset : Z; zoneStart : Z; zoneEnd : Z }.

(** A [*time.Location] is its zone rules, that is its [lookup]: the rules
    themselves are data of the system's time zone database. *)
Definition Location : Type := Z → zone.

(** [time.UTC]: offset zero at every instant. *)
Definition UTC : Location :=
  λ _, {| zoneOffset := 0; zoneStart := - 2 ^ 63; zoneEnd := 2 ^ 63 - 1 |}.

(** A [time.Time]: the instant in nanoseconds since the Unix epoch and the
    location.  [time.Now()] returns a time in [time.Local], whose rules
    may change the offset over the year. *)
Record Time := { unixNano : Z; location : Location }.

(** [t.After(u)] and [t.Before(u)] compare instants. *)
Definition After (t u : Time) : bool := unixNano u <? unixNano t.
Definition Before (t u : Time) : bool := unixNano t <? unixNano u.

Definition nsPerDay : Z := 86400 * 1000000000.

(** Days since 1970-01-01 of a proleptic Gregorian date whose month is in
    1..12; the day may lie outside the month and overflows into the
    following (or preceding) ones, as in [time.Date]. *)
Definition daysFromCivil (y m d : Z) : Z :=
  let y' := if m <=? 2 then y - 1 else y in
  let era := y' / 400 in
  let yoe := y' - era * 400 in
  let mp := if 2 <? m then m - 3 else m + 9 in
  let doy := (153 * mp + 2) / 5 + d - 1 in
  let doe := yoe * 365 + yoe / 4 - yoe / 100 + doy in
  era * 146097 + doe - 719468.

Definition civilFromDays (z0 : Z) : Z * Z * Z :=
  let z := z0 + 719468 in
  let era := z / 146097 in
  let doe := z - era * 146097 in
  let yoe := (doe - doe / 1460 + doe / 36524 - doe / 146096) / 365 in
  let doy := doe - (365 * yoe + yoe / 4 - yoe / 100) in
  let mp := (5 * doy + 2) / 153 in
  let d := doy - (153 * mp + 2) / 5 + 1 in
  let m := if mp <? 10 then mp + 3 else mp - 9 in
  let y := yoe + era * 400 in
  (if m <=? 2 then y + 1 else y, m, d).

(** [time.Date(year, month, day, 0, 0, 0, nsec, loc)], with [nsec] the
    nanoseconds into the day (at least zero): the month is normalised into
    the year, the day overflows.  The wall clock reading is first taken as
    if it were UTC, then moved to UTC by the offset the location has
    there: the zone found at the reading itself when the moved instant
    lies in that zone's range, otherwise the zone found at the moved
    instant. *)
Definition Date (year month day nsOfDay : Z) (loc : Location) : Time :=
  let m0 := month - 1 in
  let year' := year + m0 / 12 in
  let month' := m0 mod 12 + 1 in
  let days := daysFromCivil year' month' 1 + (day - 1) in
  let wall := days * nsPerDay + nsOfDay in
  let unix := wall / 1000000000 in
  let z := loc unix in
  let offset :=
    if zoneOffset z =? 0 then 0
    else
      let utc := unix - zoneOffset z in
      if (utc <? zoneStart z) || (zoneEnd z <=? utc)
      then zoneOffset (loc utc)
      else zoneOffset z in
  {| unixNano := wall - offset * 1000000000; location := loc |}.

(** The offset in force at [t] in [t]'s location. *)
Definition offsetAt (t : Time) : Z :=
  zoneOffset (location t (unixNano t / 1000000000)).

(** [t.AddDate(years, months, days)]: the date and the clock of [t] are read
    in [t]'s location with the offset in force at [t]; the shifted date
    and the same clock go through [Date] in the same location, which
    resolves the offset anew at the result. *)
Definition AddDate (t : Time) (years months days : Z) : Time :=
  let local := unixNano t + offsetAt t * 1000000000 in
  let '(y, m, d) := civilFromDays (local / nsPerDay) in
  Date (y + years) (m + months) (d + days) (local mod nsPerDay) (location t).

Definition isLeap (y : Z) : bool :=
  (y mod 4 =? 0) && (negb (y mod 100 =? 0) || (y mod 400 =? 0)).

Definition daysIn (m y : Z) : Z :=
  if m =? 2 then (if isLeap y then 29 else 28)
  else if (m =? 4) || (m =? 6) || (m =? 9) || (m =? 11) then 30
  else 31.

Definition isDigit (c : ascii) : bool :=
  let n := Z.of_N (N_of_ascii c) in (48 <=? n) && (n <=? 57).

Definition digit (c : ascii) : Z := Z.of_N (N_of_ascii c) - 48.

Definition isDash (c : ascii) : bool := Z.of_N (N_of_ascii c) =? 45.

(** [time.Parse("2006-01-02", value)]: four digits, a dash, two digits, a
    dash, two digits and nothing more; the month in 1..12 and the day
    within the month; the result is midnight UTC of that day.  [None] is
    Go's non-nil error. *)
Definition ParseDate (value : string) : option Time :=
  match list_ascii_of_string value with
  | [y1; y2; y3; y4; s1; m1; m2; s2; d1; d2] =>
      if forallb isDigit [y1; y2; y3; y4; m1; m2; d1; d2]
         && isDash s1 && isDash s2
      then
        let year := ((digit y1 * 10 + digit y2) * 10 + digit y3) * 10 + digit y4 in
        let month := digit m1 * 10 + digit m2 in
        let day := digit d1 * 10 + digit d2 in
        if (1 <=? month) && (month <=? 12) && (1 <=? day) && (day <=? daysIn month year)
        then Some (Date year month day 0 UTC)
        else None
      else None
  | _ => None
  end.

End GoTime.

(* ===================================================================== *)
(** ** The update-capable reconciliation engine *)
(* ===================================================================== *)

Module Airtable.

(** [airtable.Record], embedded in every record struct: the stored row's
    identity. *)
Record airtableRecord := { ID : string; CreatedTime : string }.

(** [airtable.RecordLink] is a [[]string]. *)
Definition RecordLink := list string.

Record TransactionFields := {
  PlaidID : string;
  AccountID : string;
  AccountIDLink : RecordLink;
  Amount : float;
  Name : string;
  MerchantName : string;
  Pending : bool;
  DateTime : string;
  PlaidCategory1 : string;
  PlaidCategory2 : string;
  PlaidCategory3 : string;
  Address : string;
  CategoryLookup : RecordLink
}.

Record TransactionRecord := {
  Record_ : airtableRecord;
  Fields : TransactionFields;
  Typecast : bool
}.

(** [t.ID = id] on the embedded [airtable.Record]. *)
Definition setID (t : TransactionRecord) (id : string) : TransactionRecord :=
  {| Record_ := {| ID := id; CreatedTime := CreatedTime (Record_ t) |};
     Fields := Fields t;
     Typecast := Typecast t |}.

Record AccountUpdate := {
  ToCreate : list TransactionRecord;
  ToDelete : list TransactionRecord;
  ToUpdate : list TransactionRecord
}.

(** [var u AccountUpdate]: three nil slices. *)
Definition emptyUpdate : AccountUpdate :=
  {| ToCreate := []; ToDelete := []; ToUpdate := [] |}.

Definition appendCreate (u : AccountUpdate) (t : TransactionRecord) :=
  {| ToCreate := ToCreate u ++ [t]; ToDelete := ToDelete u; ToUpdate := ToUpdate u |}.
Definition appendDelete (u : AccountUpdate) (t : TransactionRecord) :=
  {| ToCreate := ToCreate u; ToDelete := ToDelete u ++ [t]; ToUpdate := ToUpdate u |}.
Definition appendUpdate (u : AccountUpdate) (t : TransactionRecord) :=
  {| ToCreate := ToCreate u; ToDelete := ToDelete u; ToUpdate := ToUpdate u ++ [t] |}.

(** One pass of a Go [for ... range] loop whose body can panic. *)
Fixpoint rangeM {A S : Type} (body : A → S → result S) (l : list A) (s : S) : result S :=
  match l with
  | [] => Ok s
  | a :: l' =>
      match body a s with
      | Ok s' => rangeM body l' s'
      | Panic e => Panic e
      end
  end.

(** [byAccountIDbyTransactionID]: the records by account, then by Plaid
    id; a later record with the same two ids replaces the earlier one. *)
Definition byAccountIDbyTransactionID (ts : list TransactionRecord)
    : gmap string (gmap string TransactionRecord) :=
  fold_left
    (λ ret t,
       let byID := default ∅ (ret !! AccountID (Fields t)) in
       <[AccountID (Fields t) := <[PlaidID (Fields t) := t]> byID]> ret)
    ts ∅.

(** Body of the loop over the source records: [ids] collects the keys
    seen, [u] the plan. *)
Definition sourceBody (airtableTs : gmap string TransactionRecord)
    (kv : string * TransactionRecord)
    (st : gset string * AccountUpdate) : gset string * AccountUpdate :=
  let '(id, t) := kv in
  let '(ids, u) := st in
  let ids := {[id]} ∪ ids in
  match airtableTs !! id with
  | None => (ids, appendCreate u t)
  | Some existing =>
      if bool_decide (Pending (Fields existing) ≠ Pending (Fields t))
         || bool_decide (Address (Fields existing) ≠ Address (Fields t))
      then (ids, appendUpdate u (setID t (ID (Record_ existing))))
      else (ids, u)
  end.

(** Body of the loop over the mirror records: a record whose key the
    source lacks has its date parsed (a failure panics) and is scheduled
    for deletion when the date is after the cutoff. *)
Definition mirrorBody (cutoff : GoTime.Time) (ids : gset string)
    (kv : string * TransactionRecord) (u : AccountUpdate) : result AccountUpdate :=
  let '(id, t) := kv in
  if bool_decide (id ∈ ids) then Ok u
  else
    match GoTime.ParseDate (DateTime (Fields t)) with
    | None => Panic (DateTime (Fields t))
    | Some transactionTime =>
        if GoTime.After transactionTime cutoff
        then Ok (appendDelete u t)
        else Ok u
    end.

(** [updateAccount(plaidTs, airtableTs)], with the clock reading [now] that
    [time.Now()] returns.  Go ranges over a map in an unspecified order;
    the model takes the order of [map_to_list]. *)
Definition updateAccount (now : GoTime.Time)
    (plaidTs airtableTs : gmap string TransactionRecord) : result AccountUpdate :=
  let '(ids, u) :=
    fold_left (λ st kv, sourceBody airtableTs kv st) (map_to_list plaidTs) (∅, emptyUpdate) in
  let cutoff := GoTime.AddDate now 0 (-1) 0 in
  rangeM (mirrorBody cutoff ids) (map_to_list airtableTs) u.

(** The plan [Sync] computes for one account of the source:
    [updateAccount(transactions, airtableArranged[accountID])]; a missing
    mirror account is the nil map. *)
Definition accountPlan (now : GoTime.Time)
    (plaidTransactions airtableTransactions : list TransactionRecord)
    (accountID : string) : option (result AccountUpdate) :=
  let plaidArranged := byAccountIDbyTransactionID plaidTransactions in
  let airtableArranged := byAccountIDbyTransactionID airtableTransactions in
  match plaidArranged !! accountID with
  | Some transactions =>
      Some (updateAccount now transactions (default ∅ (airtableArranged !! accountID)))
  | None => None
  end.

End Airtable.

(* ===================================================================== *)
(** ** The older engine of airtable_transactions.go *)
(* ===================================================================== *)

Module AirtableV0.

Record airtableRecord := { ID : string; CreatedTime : string }.

Record TransactionFields := {
  PlaidID : string;
  AccountID : string;
  AccountIDLink : list string;
  Amount : float;
  Name : string;
  MerchantName : string;
  Pending : bool;
  DateTime : string;
  PlaidCategory1 : string;
  PlaidCategory2 : string;
  PlaidCategory3 : string
}.

Record TransactionRecord := {
  Record_ : airtableRecord;
  Fields : TransactionFields;
  Typecast : bool
}.

Definition setID (t : TransactionRecord) (id : string) : TransactionRecord :=
  {| Record_ := {| ID := id; CreatedTime := CreatedTime (Record_ t) |};
     Fields := Fields t;
     Typecast := Typecast t |}.

Record AccountUpdate := {
  ToCreate : list TransactionRecord;
  ToDelete : list TransactionRecord
}.

Definition emptyUpdate : AccountUpdate := {| ToCreate := []; ToDelete := [] |}.

(** Body of the loop over the source records: a changed Pending flag is a
    create of the source record and a delete of it under the mirror's
    record id. *)
Definition sourceBody (airtableTs : gmap string TransactionRecord)
    (kv : string * TransactionRecord)
    (st : gset string * AccountUpdate) : gset string * AccountUpdate :=
  let '(id, t) := kv in
  let '(ids, u) := st in
  let ids := {[id]} ∪ ids in
  match airtableTs !! id with
  | None => (ids, {| ToCreate := ToCreate u ++ [t]; ToDelete := ToDelete u |})
  | Some existing =>
      if bool_decide (Pending (Fields existing) ≠ Pending (Fields t))
      then (ids, {| ToCreate := ToCreate u ++ [t];
                    ToDelete := ToDelete u ++ [setID t (ID (Record_ existing))] |})
      else (ids, u)
  end.

(** Body of the loop over the mirror records: every record whose key the
    source lacks is deleted. *)
Definition mirrorBody (ids : gset string) (kv : string * TransactionRecord)
    (u : AccountUpdate) : AccountUpdate :=
  let '(id, t) := kv in
  if bool_decide (id ∈ ids) then u
  else {| ToCreate := ToCreate u; ToDelete := ToDelete u ++ [t] |}.

(** [updateAccount(plaidTs, airtableTs)] of airtable_transactions.go. *)
Definition updateAccount (plaidTs airtableTs : gmap string TransactionRecord)
    : AccountUpdate :=
  let '(ids, u) :=
    fold_left (λ st kv, sourceBody airtableTs kv st) (map_to_list plaidTs) (∅, emptyUpdate) in
  fold_left (λ u kv, mirrorBody ids kv u) (map_to_list airtableTs) u.

End AirtableV0.

(* ===================================================================== *)
(** ** The pagination fetcher *)
(* ===================================================================== *)

Module Plaid.

(** A Go [error] as the CLI inspects it: a Plaid API error carries a
    machine-readable code, any other error does not. *)
Inductive error : Type :=
  | PlaidError (ErrorCode ErrorMessage : string)
  | OtherError (message : string).

(** [plaid.ToPlaidError(err)] followed by [.ErrorCode]: the code of a Plaid
    error, the empty string of the zero [PlaidError] for anything else (a
    nil error included). *)
Definition errorCode (err : option error) : string :=
  match err with
  | Some (PlaidError code _) => code
  | _ => ""
  end.

(** [plaid.Transaction], the fields the CLI reads. *)
Record Transaction := {
  TransactionId : string;
  AccountId : string;
  Amount : float;
  Name : string;
  MerchantName : string;
  Pending : bool;
  Date : string;
  Category : list string
}.

(** [plaid.TransactionsGetRequestOptions]: every field is a pointer. *)
Record TransactionsGetRequestOptions := {
  AccountIds : option (list string);
  Count : option Z;
  Offset : option Z
}.

(** [plaid.TransactionsGetRequest]; [Options] is a pointer. *)
Record TransactionsGetRequest := {
  StartDate : string;
  EndDate : string;
  Options : option TransactionsGetRequestOptions;
  AccessToken : string
}.

Record TransactionsGetResponse := {
  Transactions : list Transaction;
  TotalTransactions : Z
}.

(** An [int32] sum wraps around. *)
Definition wrap32 (z : Z) : Z := (z + 2147483648) mod 4294967296 - 2147483648.

(** [o.SetOffset(v)] and [o.SetAccountIds(v)]. *)
Definition SetOffset (o : TransactionsGetRequestOptions) (v : Z) :=
  {| AccountIds := AccountIds o; Count := Count o; Offset := Some v |}.
Definition SetAccountIds (o : TransactionsGetRequestOptions) (v : list string) :=
  {| AccountIds := Some v; Count := Count o; Offset := Offset o |}.

Definition withOptions (req : TransactionsGetRequest) (o : TransactionsGetRequestOptions) :=
  {| StartDate := StartDate req; EndDate := EndDate req;
     Options := Some o; AccessToken := AccessToken req |}.

End Plaid.

Module Fetcher.
Import Plaid.

(** What one run leaves behind: the requests issued, each with the answer
    it got, in order. *)
Definition exchange : Type := TransactionsGetRequest * (TransactionsGetResponse + error).

(** What [AllTransactions] hands back: the slice and the error. *)
Definition returned : Type := list Transaction * option error.

Section Server.

(** The API behind [client.PlaidApi.TransactionsGet(ctx)...Execute()]: a
    server with a state of its own. *)
Variable St : Type.
Variable Execute : TransactionsGetRequest → St → (TransactionsGetResponse + error) * St.

(** The [for] loop of [AllTransactions].  [total] is
    [int(res.TotalTransactions)] of the first response (the loop's own
    [res] shadows it).  The offset step reads [*req.Options.Offset] and
    [*req.Options.Count]: a nil pointer there is a run-time panic.  [None]
    when [fuel] iterations were not enough. *)
Fixpoint pageLoop (fuel : nat) (total : Z) (req : TransactionsGetRequest)
    (transactions : list Transaction) (st : St) (log : list exchange)
    : option (result returned) * St * list exchange :=
  if Z.of_nat (length transactions) <? total then
    match fuel with
    | O => (None, st, log)
    | S fuel' =>
        match Options req with
        | Some o =>
            match Offset o, Count o with
            | Some offset, Some count =>
                let req' := withOptions req (SetOffset o (wrap32 (offset + count))) in
                match Execute req' st with
                | (inr err, st') =>
                    (Some (Ok (transactions, Some err)), st', log ++ [(req', inr err)])
                | (inl res, st') =>
                    pageLoop fuel' total req' (transactions ++ Transactions res) st'
                      (log ++ [(req', inl res)])
                end
            | _, _ => (Some (Panic "nil pointer dereference"), st, log)
            end
        | None => (Some (Panic "nil pointer dereference"), st, log)
        end
    end
  else (Some (Ok (transactions, None)), st, log).

(** [AllTransactions(ctx, req, client)]. *)
Definition AllTransactions (fuel : nat) (req : TransactionsGetRequest) (st : St)
    : option (result returned) * St * list exchange :=
  match Execute req st with
  | (inr err, st') => (Some (Ok ([], Some err)), st', [(req, inr err)])
  | (inl res, st') =>
      pageLoop fuel (TotalTransactions res) req ([] ++ Transactions res) st'
        [(req, inl res)]
  end.

End Server.

(** The request the [transactions] and [sync-transactions] commands build:
    the options come from [plaid.NewTransactionsGetRequestOptions()], only
    the account ids are set on them. *)
Definition cliRequest (newOptions : TransactionsGetRequestOptions)
    (accountID start end_ token : string) : TransactionsGetRequest :=
  let accountIDs := if bool_decide (0 < String.length accountID)%nat then [accountID] else [] in
  let options := SetAccountIds newOptions accountIDs in
  {| StartDate := start; EndDate := end_; Options := Some options; AccessToken := token |}.

(** The constructor of plaid-go's generated model: it assigns the defaults
    the API declares for the page, [count = 100] and [offset = 0]. *)
Definition NewTransactionsGetRequestOptions : TransactionsGetRequestOptions :=
  {| AccountIds := None; Count := Some 100; Offset := Some 0 |}.

(** A server that holds the records [db] and answers every request with
    the page it asks for and the total count. *)
Definition page (db : list Transaction) (req : TransactionsGetRequest) : list Transaction :=
  match Options req with
  | Some o => take (Z.to_nat (default 100 (Count o))) (drop (Z.to_nat (default 0 (Offset o))) db)
  | None => take 100 db
  end.

Definition pagedServer (db : list Transaction) (req : TransactionsGetRequest) (st : unit)
    : (TransactionsGetResponse + error) * unit :=
  (inl {| Transactions := page db req; TotalTransactions := Z.of_nat (length db) |}, st).

(** A server whose [n]-th answer (counting from 0 in its state) is the
    error [err]; before that it serves pages of [db]. *)
Definition failingServer (db : list Transaction) (n : nat) (err : error)
    (req : TransactionsGetRequest) (st : nat) : (TransactionsGetResponse + error) * nat :=
  if bool_decide (st = n) then (inr err, S st)
  else (inl {| Transactions := page db req; TotalTransactions := Z.of_nat (length db) |}, S st).

End Fetcher.

(* ===================================================================== *)
(** ** The auth-retry wrapper *)
(* ===================================================================== *)

Module Retry.
Import Plaid.

Record idAndAlias := { id : string; alias : string }.

(** What the wrapper did, in order. *)
Inductive event : Type :=
  | Ran (err : option error)
  | Relinked (itemID port : string) (err : option error).

Section Wrapper.

(** The world the closures act on: [action] is a [func() error] closure,
    [Relink] is [linker.Relink(ctx, itemID, port)] when it returns. *)
Variable W : Type.
Variable Relink : string → string → W → option error * W.

(** [WithRelinkOnAuthError(ctx, item, data, linker, action)]; [port] is
    [viper.GetString("link.port")]. *)
Definition WithRelinkOnAuthError (port : string) (item : idAndAlias)
    (action : W → option error * W) (w : W) : option error * W * list event :=
  let '(err, w1) := action w in
  if bool_decide (errorCode err = "ITEM_LOGIN_REQUIRED"%string) then
    let '(err', w2) := Relink (id item) port w1 in
    match err' with
    | Some e => (Some e, w2, [Ran err; Relinked (id item) port err'])
    | None =>
        let '(err'', w3) := action w2 in
        (err'', w3, [Ran err; Relinked (id item) port None; Ran err''])
    end
  else (err, w1, [Ran err]).

End Wrapper.

Definition isRan (e : event) : bool := match e with Ran _ => true | _ => false end.
Definition isRelinked (e : event) : bool := match e with Relinked _ _ _ => true | _ => false end.

Definition loginRequired : error := PlaidError "ITEM_LOGIN_REQUIRED" "the login details have changed".

(** An action that fails with the re-auth code on its first [n] runs and
    succeeds afterwards; the world counts the runs. *)
Definition expiredFor (n : nat) (w : nat) : option error * nat :=
  (if bool_decide (w < n)%nat then Some loginRequired else None, S w).

(** An action that fails with [e] on every run. *)
Definition failsWith (e : error) (w : nat) : option error * nat := (Some e, S w).

Definition relinkOk (itemID port : string) (w : nat) : option error * nat := (None, w).
Definition relinkFails (itemID port : string) (w : nat) : option error * nat :=
  (Some (OtherError "Invalid HTTP method"), w).

End Retry.

(* ===================================================================== *)
(** ** The link broker's callback handlers *)
(* ===================================================================== *)

Module Linker.
Import Plaid.

(** The request as a handler reads it: the method and, after
    [r.ParseForm()], the form ([url.Values], a [map[string][]string]). *)
Record Request := { Method : string; Form : gmap string (list string) }.

(** [r.Form.Get(key)]: the first value of the key, the empty string when
    there is none. *)
Definition Get (v : gmap string (list string)) (key : string) : string :=
  match v !! key with
  | Some (x :: _) => x
  | _ => ""
  end.

(** What a handler does, in order: channel sends on the linker and writes
    to the response. *)
Inductive effect : Type :=
  | Render (template linkToken : string)
  | SendResults (token : string)
  | SendRelinkResults (ok : bool)
  | SendErrors (err : error)
  | Write (body : string).

Definition errorsNew (msg : string) : error := OtherError msg.

(** [handleLink(linker, linkToken)]. *)
Definition handleLink (linkToken : string) (r : Request) : list effect :=
  if bool_decide (Method r = "GET"%string) then [Render "link" linkToken]
  else if bool_decide (Method r = "POST"%string) then
    let token := Get (Form r) "public_token" in
    if bool_decide (token ≠ ""%string)
    then [SendResults token; Write "ok"]
    else [SendErrors (errorsNew "Empty public_token"); Write "ok"]
  else [SendErrors (errorsNew "Invalid HTTP method")].

(** [handleRelink(linker, linkToken)]. *)
Definition handleRelink (linkToken : string) (r : Request) : list effect :=
  if bool_decide (Method r = "GET"%string) then [Render "relink" linkToken]
  else if bool_decide (Method r = "POST"%string) then
    let err := Get (Form r) "error" in
    if bool_decide (err ≠ ""%string)
    then [SendErrors (errorsNew err); Write "ok"]
    else [SendRelinkResults true; Write "ok"]
  else [SendErrors (errorsNew "Invalid HTTP method")].

Definition post (form : gmap string (list string)) : Request :=
  {| Method := "POST"; Form := form |}.

End Linker.

(* ===================================================================== *)
(** ** Sample data: one account, the scenarios of the specification *)
(* ===================================================================== *)

Module Sample.
Import Airtable.

Definition record (rid pid acct : string) (pending : bool) (date addr : string)
    : TransactionRecord :=
  {| Record_ := {| ID := rid; CreatedTime := "" |};
     Fields := {| PlaidID := pid; AccountID := acct; AccountIDLink := [acct];
                  Amount := 12.5%float; Name := "Coffee"; MerchantName := "Cafe";
                  Pending := pending; DateTime := date;
                  PlaidCategory1 := "Food"; PlaidCategory2 := ""; PlaidCategory3 := "";
                  Address := addr; CategoryLookup := [] |};
     Typecast := true |}.

(** 2026-10-31, 12:00 UTC; one month earlier is "September 31st", that is
    2026-10-01, 12:00 UTC. *)
Definition now : GoTime.Time := GoTime.Date 2026 10 31 (12 * 3600 * 1000000000) GoTime.UTC.

(** Source: A1 (pending), A4 (unchanged), A5 (new). *)
Definition source : list TransactionRecord :=
  [ record "A1" "A1" "acct" true "2026-10-30" "1 Main St";
    record "A4" "A4" "acct" false "2026-10-12" "2 Side St";
    record "A5" "A5" "acct" false "2026-10-29" "3 High St" ].

(** Mirror: A1 (settled), A2 (40 days old), A3 (5 days old), A4. *)
Definition mirror : list TransactionRecord :=
  [ record "rec1" "A1" "acct" false "2026-10-30" "1 Main St";
    record "rec2" "A2" "acct" false "2026-09-21" "";
    record "rec3" "A3" "acct" false "2026-10-26" "";
    record "rec4" "A4" "acct" false "2026-10-12" "2 Side St" ].

Definition plaidTs : gmap string TransactionRecord :=
  default ∅ (byAccountIDbyTransactionID source !! "acct"%string).
Definition airtableTs : gmap string TransactionRecord :=
  default ∅ (byAccountIDbyTransactionID mirror !! "acct"%string).

(** The plan of the update-capable engine for this account. *)
Definition plan : AccountUpdate :=
  {| ToCreate := [record "A5" "A5" "acct" false "2026-10-29" "3 High St"];
     ToDelete := [record "rec3" "A3" "acct" false "2026-10-26" ""];
     ToUpdate := [record "rec1" "A1" "acct" true "2026-10-30" "1 Main St"] |}.

(** The rules of Europe/London around 2026: Greenwich Mean Time, British
    Summer Time (one hour east) from 2026-03-29 01:00 UTC to 2026-10-25
    01:00 UTC, Greenwich Mean Time again. *)
Definition london : GoTime.Location :=
  λ sec,
    if sec <? 1774746000
    then {| GoTime.zoneOffset := 0;
            GoTime.zoneStart := 1761440400; GoTime.zoneEnd := 1774746000 |}
    else if sec <? 1792890000
    then {| GoTime.zoneOffset := 3600;
            GoTime.zoneStart := 1774746000; GoTime.zoneEnd := 1792890000 |}
    else {| GoTime.zoneOffset := 0;
            GoTime.zoneStart := 1792890000; GoTime.zoneEnd := 1806195600 |}.

(** 2026-11-15, 00:30 in London, in winter time.  One month earlier on the
    wall clock, 2026-10-15 00:30, is summer time: 2026-10-14, 23:30 UTC. *)
Definition londonNow : GoTime.Time :=
  GoTime.Date 2026 11 15 (30 * 60 * 1000000000) london.

(** A mirror-only row dated 2026-10-15, that is 2026-10-15 00:00 UTC. *)
Definition londonAirtableTs : gmap string TransactionRecord :=
  {[ "A7"%string := record "rec7" "A7" "acct" false "2026-10-15" "" ]}.

(** The same mirror with a date the layout rejects. *)
Definition badMirror : list TransactionRecord :=
  mirror ++ [ record "rec6" "A6" "acct" false "10/26/2026" "" ].

(** The same data for the older engine. *)
Definition recordV0 (rid pid acct : string) (pending : bool) (date : string)
    : AirtableV0.TransactionRecord :=
  {| AirtableV0.Record_ := {| AirtableV0.ID := rid; AirtableV0.CreatedTime := "" |};
     AirtableV0.Fields :=
       {| AirtableV0.PlaidID := pid; AirtableV0.AccountID := acct;
          AirtableV0.AccountIDLink := [acct];
          AirtableV0.Amount := 12.5%float; AirtableV0.Name := "Coffee";
          AirtableV0.MerchantName := "Cafe";
          AirtableV0.Pending := pending; AirtableV0.DateTime := date;
          AirtableV0.PlaidCategory1 := "Food"; AirtableV0.PlaidCategory2 := "";
          AirtableV0.PlaidCategory3 := "" |};
     AirtableV0.Typecast := true |}.

Definition plaidTsV0 : gmap string AirtableV0.TransactionRecord :=
  {[ "A1"%string := recordV0 "A1" "A1" "acct" true "2026-10-30" ]}.

Definition airtableTsV0 : gmap string AirtableV0.TransactionRecord :=
  <[ "A2"%string := recordV0 "rec2" "A2" "acct" false "2026-09-21" ]>
  {[ "A1"%string := recordV0 "rec1" "A1" "acct" false "2026-10-30" ]}.

End Sample.

(* ===================================================================== *)
(** ** Sample feeds *)
(* ===================================================================== *)

Module Feed.
Import Plaid Fetcher.

Definition tx (n : nat) : Transaction :=
  {| TransactionId := String (ascii_of_nat n) "";
     AccountId := "acct"; Amount := 1%float; Name := "Coffee"; MerchantName := "Cafe";
     Pending := false; Date := "2026-10-30"; Category := ["Food"] |}.

Definition feed (n : nat) : list Transaction := tx <$> seq 0 n.

(** The request of the [sync-transactions] command. *)
Definition request : TransactionsGetRequest :=
  cliRequest NewTransactionsGetRequestOptions "" "2024-05-24" "2026-10-31" "access-token".

(** The same request from a constructor that leaves every pointer nil. *)
Definition bareRequest : TransactionsGetRequest :=
  cliRequest {| AccountIds := None; Count := None; Offset := None |}
    "" "2024-05-24" "2026-10-31" "access-token".

(** A request for pages of two. *)
Definition smallRequest : TransactionsGetRequest :=
  {| StartDate := "2024-05-24"; EndDate := "2026-10-31";
     Options := Some {| AccountIds := None; Count := Some 2; Offset := Some 0 |};
     AccessToken := "access-token" |}.

Definition rateLimit : error := PlaidError "RATE_LIMIT_EXCEEDED" "slow down".

End Feed.

(* ===================================================================== *)
(** ** The sync driver: [Sync] of the update-capable engine *)
(* ===================================================================== *)

Module SyncModel.

(** [plaid.Location] and [plaid.Transaction], the fields [Sync] reads. *)
Record Location := { Address : string; City : string }.

Record Transaction := {
  ID : string;
  AccountID : string;
  Amount : float;
  Name : string;
  MerchantName : string;
  Pending : bool;
  Date : string;
  Category : list string;
  Location_ : Location
}.

(** The closure [s] of [Sync]: the [n]-th tag, the empty string past the
    end. *)
Definition s (tags : list string) (n : nat) : string :=
  if bool_decide (length tags ≤ n)%nat then ""%string else nth n tags ""%string.

(** The record [Sync] builds for a fetched transaction. *)
Definition toRecord (t : Transaction) : Airtable.TransactionRecord :=
  let address := (Address (Location_ t) ++ " " ++ City (Location_ t))%string in
  {| Airtable.Record_ := {| Airtable.ID := ID t; Airtable.CreatedTime := "" |};
     Airtable.Fields :=
       {| Airtable.PlaidID := ID t;
          Airtable.AccountID := AccountID t;
          Airtable.AccountIDLink := [AccountID t];
          Airtable.Amount := Amount t;
          Airtable.Name := Name t;
          Airtable.MerchantName := MerchantName t;
          Airtable.Pending := Pending t;
          Airtable.DateTime := Date t;
          Airtable.PlaidCategory1 := s (Category t) 0;
          Airtable.PlaidCategory2 := s (Category t) 1;
          Airtable.PlaidCategory3 := s (Category t) 2;
          Airtable.Address := address;
          Airtable.CategoryLookup := [] |};
     Airtable.Typecast := true |}.

(** The calls on the Transactions table, each with the record passed and
    the error it returned. *)
Inductive op : Type := OpDelete | OpCreate | OpUpdate.

Definition write : Type := op * Airtable.TransactionRecord * option Plaid.error.

Section Store.

(** The world: the clock [time.Now()] reads and the remote table. *)
Variable W : Type.
Variable Now : W → GoTime.Time.
Variable Delete Create Update : Airtable.TransactionRecord → W → option Plaid.error * W.

(** One of the three [for ... range] loops over a plan set: the first
    error is returned at once. *)
Fixpoint writeAll (o : op) (call : Airtable.TransactionRecord → W → option Plaid.error * W)
    (l : list Airtable.TransactionRecord) (w : W) (log : list write)
    : option Plaid.error * W * list write :=
  match l with
  | [] => (None, w, log)
  | t :: l' =>
      match call t w with
      | (Some err, w') => (Some err, w', log ++ [(o, t, Some err)])
      | (None, w') => writeAll o call l' w' (log ++ [(o, t, None)])
      end
  end.

(** The loop over the accounts of the source: plan, then deletes, creates
    and updates. *)
Fixpoint syncLoop (accounts : list (string * gmap string Airtable.TransactionRecord))
    (airtableArranged : gmap string (gmap string Airtable.TransactionRecord))
    (w : W) (log : list write) : result (option Plaid.error) * W * list write :=
  match accounts with
  | [] => (Ok None, w, log)
  | (accountID, transactions) :: rest =>
      match Airtable.updateAccount (Now w) transactions
              (default ∅ (airtableArranged !! accountID)) with
      | Panic e => (Panic e, w, log)
      | Ok updates =>
          match writeAll OpDelete Delete (Airtable.ToDelete updates) w log with
          | (Some err, w1, log1) => (Ok (Some err), w1, log1)
          | (None, w1, log1) =>
              match writeAll OpCreate Create (Airtable.ToCreate updates) w1 log1 with
              | (Some err, w2, log2) => (Ok (Some err), w2, log2)
              | (None, w2, log2) =>
                  match writeAll OpUpdate Update (Airtable.ToUpdate updates) w2 log2 with
                  | (Some err, w3, log3) => (Ok (Some err), w3, log3)
                  | (None, w3, log3) => syncLoop rest airtableArranged w3 log3
                  end
              end
          end
      end
  end.

(** [Sync(transactions, airtableTransactions)]; the accounts are ranged
    over in the order of [map_to_list]. *)
Definition Sync (transactions : list Transaction)
    (airtableTransactions : list Airtable.TransactionRecord) (w : W)
    : result (option Plaid.error) * W * list write :=
  let plaidTransactions := toRecord <$> transactions in
  let plaidArranged := Airtable.byAccountIDbyTransactionID plaidTransactions in
  let airtableArranged := Airtable.byAccountIDbyTransactionID airtableTransactions in
  syncLoop (map_to_list plaidArranged) airtableArranged w [].

End Store.

End SyncModel.

(* ===================================================================== *)
(** ** [SyncAccounts] of airtable_accounts.go *)
(* ===================================================================== *)

Module PlaidV0.

(** [plaid.Account] of the older client, the fields [SyncAccounts] reads. *)
Record Account := { AccountID : string; Name : string; OfficialName : string }.

End PlaidV0.

Module Accounts.

Record AccountFields := { AccountID : string; Name : string }.

Record AccountRecord := {
  Record_ : Airtable.airtableRecord;
  Fields : AccountFields
}.

(** The record [SyncAccounts] builds: the official name, or the name when
    there is none. *)
Definition toRecord (a : PlaidV0.Account) : AccountRecord :=
  let name := if bool_decide (PlaidV0.OfficialName a = ""%string)
              then PlaidV0.Name a else PlaidV0.OfficialName a in
  {| Record_ := {| Airtable.ID := ""; Airtable.CreatedTime := "" |};
     Fields := {| AccountID := PlaidV0.AccountID a; Name := name |} |}.

(** A [Create] call with the error it returned. *)
Definition created : Type := AccountRecord * option Plaid.error.

Section Store.

Variable W : Type.
Variable List : W → (list AccountRecord + Plaid.error) * W.
Variable Create : AccountRecord → W → option Plaid.error * W.

(** The loop over the fetched accounts: one already listed is skipped, the
    first failing [Create] ends the run. *)
Fixpoint createMissing (existingIDs : gset string) (l : list AccountRecord)
    (w : W) (log : list created) : option Plaid.error * W * list created :=
  match l with
  | [] => (None, w, log)
  | account :: rest =>
      if bool_decide (AccountID (Fields account) ∈ existingIDs)
      then createMissing existingIDs rest w log
      else
        match Create account w with
        | (Some err, w') => (Some err, w', log ++ [(account, Some err)])
        | (None, w') => createMissing existingIDs rest w' (log ++ [(account, None)])
        end
  end.

(** [SyncAccounts(accounts)]. *)
Definition SyncAccounts (accounts : list PlaidV0.Account) (w : W)
    : option Plaid.error * W * list created :=
  let plaidAccounts := toRecord <$> accounts in
  match List w with
  | (inr err, w1) => (Some err, w1, [])
  | (inl airtableAccounts, w1) =>
      let existingIDs : gset string :=
        list_to_set ((λ account, AccountID (Fields account)) <$> airtableAccounts) in
      createMissing existingIDs plaidAccounts w1 []
  end.

End Store.

End Accounts.

(* ===================================================================== *)
(** ** The command line: validation, aliases, item selection *)
(* ===================================================================== *)

Module Cli.

(** [sliceToMap]: the set of the slice's strings as a [map[string]bool]. *)
Definition sliceToMap (slice : list string) : gmap string bool :=
  fold_left (λ set s, <[s := true]> set) slice ∅.

(** Indexing a [map[string]bool]: [false] for a missing key. *)
Definition index (m : gmap string bool) (k : string) : bool := default false (m !! k).

Definition plaidSupportedCountries : list string := ["US"; "CA"; "GB"; "IE"; "ES"; "FR"; "NL"].
Definition plaidSupportedLanguages : list string := ["en"; "fr"; "es"; "nl"].

(** The loop of [AreValidCountries]: the first unsupported code returns
    [false]. *)
Fixpoint allSupported (supportedCountries : gmap string bool) (countries : list string) : bool :=
  match countries with
  | [] => true
  | c :: rest =>
      if negb (index supportedCountries c) then false
      else allSupported supportedCountries rest
  end.

Definition AreValidCountries (countries : list string) : bool :=
  allSupported (sliceToMap plaidSupportedCountries) countries.

Definition IsValidLanguageCode (lang : string) : bool :=
  index (sliceToMap plaidSupportedLanguages) lang.

(** [plaid_cli.Data], as the commands use it: three [map[string]string]. *)
Record Data := {
  Tokens : gmap string string;
  Aliases : gmap string string;
  BackAliases : gmap string string
}.

Section Save.

(** [data.Save()]: writes the data to the data directory. *)
Variable W : Type.
Variable Save : Data → W → option Plaid.error * W.

(** [SetAlias(data, itemID, alias)]: the maps are updated in place before
    the save. *)
Definition SetAlias (data : Data) (itemID alias : string) (w : W)
    : option Plaid.error * Data * W :=
  match Tokens data !! itemID with
  | None =>
      (Some (Linker.errorsNew
               ("No access token found for item ID `" ++ itemID
                ++ "`. Try re-linking your account with `plaid-cli link`.")),
       data, w)
  | Some _ =>
      let data' := {| Tokens := Tokens data;
                      Aliases := <[alias := itemID]> (Aliases data);
                      BackAliases := <[itemID := alias]> (BackAliases data) |} in
      let '(err, w') := Save data' w in
      (err, data', w')
  end.

End Save.

(** The item the commands skip. *)
Definition sandboxItem : string := "7jKq173RmNfQyGvRnw6XFxQjKVlo8DcgjdEMJ".

(** The items of the [accounts], [sync-transactions] and [unlink]
    commands: every alias for ["all"], else the alias given, which must
    exist. *)
Definition selectItems (aliases : gmap string string) (itemOrAlias : string)
    : result (list Retry.idAndAlias) :=
  if bool_decide (itemOrAlias = "all"%string) then
    Ok ((λ kv, {| Retry.id := kv.2; Retry.alias := kv.1 |}) <$> map_to_list aliases)
  else
    match aliases !! itemOrAlias with
    | None => Panic "Unknown alias"
    | Some itemID => Ok [{| Retry.id := itemID; Retry.alias := itemOrAlias |}]
    end.

(** The items the [accounts] and [sync-transactions] commands go on to
    process: the sandbox item is skipped. *)
Definition processed (items : list Retry.idAndAlias) : list Retry.idAndAlias :=
  filter (λ item, Retry.id item ≠ sandboxItem) items.

End Cli.

(* ===================================================================== *)
(** ** Checks of the [time] model *)
(* ===================================================================== *)

Example ParseDate_epoch :
  GoTime.ParseDate "1970-01-01" = Some {| GoTime.unixNano := 0; GoTime.location := GoTime.UTC |}.
Proof. reflexivity. Qed.

Example ParseDate_2024_02_29 :
  GoTime.unixNano <$> GoTime.ParseDate "2024-02-29" = Some (19782 * GoTime.nsPerDay).
Proof. reflexivity. Qed.

Example ParseDate_rejects :
  GoTime.ParseDate "2023-02-29" = None ∧ GoTime.ParseDate "2023-13-01" = None ∧
  GoTime.ParseDate "2023-1-01" = None ∧ GoTime.ParseDate "2023-01-01T00:00:00Z" = None ∧
  GoTime.ParseDate "" = None.
Proof. repeat split; reflexivity. Qed.

(** 2026-03-31 12:00 UTC minus one month is "February 31st", 2026-03-03 12:00. *)
Example AddDate_overflow :
  GoTime.AddDate (GoTime.Date 2026 3 31 (12 * 3600 * 1000000000) GoTime.UTC) 0 (-1) 0
  = GoTime.Date 2026 3 3 (12 * 3600 * 1000000000) GoTime.UTC.
Proof. reflexivity. Qed.

(** In a location whose offset changes, the offset of the result is the one
    in force at the result: 00:30 on 2026-11-15 in London is 00:30 UTC, one
    month earlier 00:30 on 2026-10-15 is 23:30 UTC of the day before. *)
Example AddDate_across_summer_time :
  GoTime.unixNano Sample.londonNow = 1794702600 * 1000000000
  ∧ GoTime.unixNano (GoTime.AddDate Sample.londonNow 0 (-1) 0) = 1792020600 * 1000000000.
Proof. split; reflexivity. Qed.

(** A wall clock reading that the location skips (01:30 on 2026-03-29 in
    London) and one it repeats (01:30 on 2026-10-25): both are taken in
    winter time, 01:30 UTC. *)
Example Date_near_transitions :
  GoTime.unixNano (GoTime.Date 2026 3 29 (5400 * 1000000000) Sample.london)
  = 1774747800 * 1000000000
  ∧ GoTime.unixNano (GoTime.Date 2026 10 25 (5400 * 1000000000) Sample.london)
    = 1792891800 * 1000000000.
Proof. split; reflexivity. Qed.

Example AddDate_january :
  GoTime.AddDate (GoTime.Date 2026 1 15 0 GoTime.UTC) 0 (-1) 0
  = GoTime.Date 2025 12 15 0 GoTime.UTC.
Proof. reflexivity. Qed.

(* ===================================================================== *)
(** ** What the two loops of [updateAccount] compute *)
(* ===================================================================== *)

Module AirtableFacts.
Import Airtable.

(** The mutable fields differ: the guard of the update branch. *)
Definition changed (existing t : TransactionRecord) : bool :=
  bool_decide (Pending (Fields existing) ≠ Pending (Fields t))
  || bool_decide (Address (Fields existing) ≠ Address (Fields t)).

Definition createOf (airtableTs : gmap string TransactionRecord)
    (kv : string * TransactionRecord) : option TransactionRecord :=
  match airtableTs !! kv.1 with
  | None => Some kv.2
  | Some _ => None
  end.

Definition updateOf (airtableTs : gmap string TransactionRecord)
    (kv : string * TransactionRecord) : option TransactionRecord :=
  match airtableTs !! kv.1 with
  | Some existing =>
      if changed existing kv.2 then Some (setID kv.2 (ID (Record_ existing))) else None
  | None => None
  end.

Definition deleteOf (cutoff : GoTime.Time) (ids : gset string)
    (kv : string * TransactionRecord) : option TransactionRecord :=
  if bool_decide (kv.1 ∈ ids) then None
  else
    match GoTime.ParseDate (DateTime (Fields kv.2)) with
    | Some transactionTime =>
        if GoTime.After transactionTime cutoff then Some kv.2 else None
    | None => None
    end.

(** A mirror record that makes the second loop panic. *)
Definition malformed (ids : gset string) (kv : string * TransactionRecord) : Prop :=
  ¬ (kv.1 ∈ ids) ∧ GoTime.ParseDate (DateTime (Fields kv.2)) = None.

#[local] Instance malformed_dec ids kv : Decision (malformed ids kv).
Proof. unfold malformed. apply _. Defined.

Lemma sourceLoop_spec airtableTs (l : list (string * TransactionRecord)) ids u :
  fold_left (λ st kv, sourceBody airtableTs kv st) l (ids, u)
  = (list_to_set l.*1 ∪ ids,
     {| ToCreate := ToCreate u ++ omap (createOf airtableTs) l;
        ToDelete := ToDelete u;
        ToUpdate := ToUpdate u ++ omap (updateOf airtableTs) l |}).
Proof.
  revert ids u. induction l as [|[id t] l IH]; intros ids u; simpl.
  - destruct u; simpl. rewrite !app_nil_r. f_equal. set_solver.
  - unfold createOf, updateOf, changed; simpl.
    destruct (airtableTs !! id) as [existing|] eqn:Hlk.
    + destruct (bool_decide (Pending (Fields existing) ≠ Pending (Fields t))
                || bool_decide (Address (Fields existing) ≠ Address (Fields t))) eqn:Hch.
      * rewrite IH. simpl. rewrite <- app_assoc. simpl. f_equal. set_solver.
      * rewrite IH. f_equal. set_solver.
    + rewrite IH. simpl. rewrite <- app_assoc. simpl. f_equal. set_solver.
Qed.

Lemma mirrorLoop_ok cutoff ids (l : list (string * TransactionRecord)) u :
  Forall (λ kv, ¬ malformed ids kv) l →
  rangeM (mirrorBody cutoff ids) l u
  = Ok {| ToCreate := ToCreate u;
          ToDelete := ToDelete u ++ omap (deleteOf cutoff ids) l;
          ToUpdate := ToUpdate u |}.
Proof.
  intros HF. revert u. induction HF as [|[id t] l Hx HF IH]; intros u; simpl.
  - destruct u; simpl. by rewrite app_nil_r.
  - unfold deleteOf, malformed in *; simpl in *.
    destruct (bool_decide (id ∈ ids)) eqn:Hin.
    + apply IH.
    + apply bool_decide_eq_false in Hin.
      destruct (GoTime.ParseDate (DateTime (Fields t))) as [tt|] eqn:Hp.
      * destruct (GoTime.After tt cutoff).
        -- rewrite IH. simpl. by rewrite <- app_assoc.
        -- apply IH.
      * exfalso. apply Hx. by split.
Qed.

Lemma mirrorLoop_panic cutoff ids (l : list (string * TransactionRecord)) u :
  Exists (malformed ids) l →
  ∃ err, rangeM (mirrorBody cutoff ids) l u = Panic err.
Proof.
  intros HE. revert u. induction HE as [[id t] l Hx|[id t] l HE IH]; intros u; simpl.
  - destruct Hx as [Hin Hp]; simpl in *.
    rewrite bool_decide_eq_false_2 by done. rewrite Hp. eauto.
  - destruct (bool_decide (id ∈ ids)); [apply IH|].
    destruct (GoTime.ParseDate (DateTime (Fields t))) as [tt|]; [|eauto].
    destruct (GoTime.After tt cutoff); apply IH.
Qed.

(** The keys the first loop has seen are the source's keys. *)
Lemma seen_keys (plaidTs : gmap string TransactionRecord) (id : string) :
  id ∈ (list_to_set (map_to_list plaidTs).*1 ∪ ∅ : gset string) ↔ is_Some (plaidTs !! id).
Proof.
  rewrite elem_of_union, elem_of_list_to_set, list_elem_of_fmap. split.
  - intros [[[k t] [-> Hin]]|Hin]; [|set_solver].
    apply elem_of_map_to_list in Hin. eauto.
  - intros [t Ht]. left. exists (id, t). split; [done|]. by apply elem_of_map_to_list.
Qed.

(** [updateAccount] unfolded into the three comprehensions. *)
Lemma updateAccount_unfold now (plaidTs airtableTs : gmap string TransactionRecord) :
  updateAccount now plaidTs airtableTs
  = rangeM (mirrorBody (GoTime.AddDate now 0 (-1) 0)
              (list_to_set (map_to_list plaidTs).*1 ∪ ∅))
      (map_to_list airtableTs)
      {| ToCreate := omap (createOf airtableTs) (map_to_list plaidTs);
         ToDelete := [];
         ToUpdate := omap (updateOf airtableTs) (map_to_list plaidTs) |}.
Proof. unfold updateAccount. by rewrite sourceLoop_spec. Qed.

Definition cutoffOf (now : GoTime.Time) : GoTime.Time := GoTime.AddDate now 0 (-1) 0.

(** A mirror-only record whose date does not parse. *)
Definition hasMalformed (plaidTs airtableTs : gmap string TransactionRecord) : Prop :=
  ∃ id t, airtableTs !! id = Some t ∧ plaidTs !! id = None
          ∧ GoTime.ParseDate (DateTime (Fields t)) = None.

Lemma malformed_in_list (plaidTs airtableTs : gmap string TransactionRecord) :
  Exists (malformed (list_to_set (map_to_list plaidTs).*1 ∪ ∅)) (map_to_list airtableTs)
  ↔ hasMalformed plaidTs airtableTs.
Proof.
  rewrite Exists_exists. unfold malformed, hasMalformed. split.
  - intros [[id t] (Hin & Hids & Hp)]; simpl in *.
    apply elem_of_map_to_list in Hin. exists id, t. split_and!; [done| |done].
    rewrite seen_keys in Hids. by apply eq_None_not_Some.
  - intros (id & t & Ha & Hpl & Hp). exists (id, t); simpl.
    split_and!; [by apply elem_of_map_to_list| |done].
    rewrite seen_keys. by apply eq_None_not_Some.
Qed.

Lemma updateAccount_Panic now (plaidTs airtableTs : gmap string TransactionRecord) :
  hasMalformed plaidTs airtableTs → ∃ err, updateAccount now plaidTs airtableTs = Panic err.
Proof.
  intros H. rewrite updateAccount_unfold. apply mirrorLoop_panic.
  by apply malformed_in_list.
Qed.

(** When [updateAccount] returns, no mirror-only date was malformed and
    the plan is the three comprehensions. *)
Lemma updateAccount_Ok now (plaidTs airtableTs : gmap string TransactionRecord) u :
  updateAccount now plaidTs airtableTs = Ok u →
  ¬ hasMalformed plaidTs airtableTs ∧
  u = {| ToCreate := omap (createOf airtableTs) (map_to_list plaidTs);
         ToDelete := omap (deleteOf (cutoffOf now) (list_to_set (map_to_list plaidTs).*1 ∪ ∅))
                       (map_to_list airtableTs);
         ToUpdate := omap (updateOf airtableTs) (map_to_list plaidTs) |}.
Proof.
  intros Hok.
  destruct (decide (Exists (malformed (list_to_set (map_to_list plaidTs).*1 ∪ ∅))
                      (map_to_list airtableTs))) as [HE|HN].
  - apply malformed_in_list in HE.
    destruct (updateAccount_Panic now _ _ HE) as [err Herr]. congruence.
  - split; [by rewrite <- malformed_in_list|].
    apply not_Exists_Forall in HN; [|apply _].
    rewrite updateAccount_unfold in Hok.
    rewrite (mirrorLoop_ok _ _ _ _ HN) in Hok. simpl in Hok.
    injection Hok as <-. reflexivity.
Qed.

Lemma updateAccount_returns now (plaidTs airtableTs : gmap string TransactionRecord) :
  ¬ hasMalformed plaidTs airtableTs → ∃ u, updateAccount now plaidTs airtableTs = Ok u.
Proof.
  intros HN. rewrite updateAccount_unfold.
  rewrite mirrorLoop_ok; [eauto|].
  apply not_Exists_Forall; [apply _|]. by rewrite malformed_in_list.
Qed.

Section Membership.
Context (now : GoTime.Time) (plaidTs airtableTs : gmap string TransactionRecord)
        (u : AccountUpdate).
Hypothesis Hok : updateAccount now plaidTs airtableTs = Ok u.

Lemma in_ToCreate r :
  r ∈ ToCreate u ↔ ∃ id, plaidTs !! id = Some r ∧ airtableTs !! id = None.
Proof.
  destruct (updateAccount_Ok _ _ _ _ Hok) as [_ ->]; simpl.
  rewrite list_elem_of_omap. unfold createOf. split.
  - intros [[id t] [Hin Hc]]; simpl in *. apply elem_of_map_to_list in Hin.
    destruct (airtableTs !! id) eqn:Ha; [done|]. exists id. naive_solver.
  - intros (id & Hp & Ha). exists (id, r); simpl.
    split; [by apply elem_of_map_to_list|]. by rewrite Ha.
Qed.

Lemma in_ToUpdate r :
  r ∈ ToUpdate u ↔
  ∃ id t existing, plaidTs !! id = Some t ∧ airtableTs !! id = Some existing
                   ∧ changed existing t = true ∧ r = setID t (ID (Record_ existing)).
Proof.
  destruct (updateAccount_Ok _ _ _ _ Hok) as [_ ->]; simpl.
  rewrite list_elem_of_omap. unfold updateOf. split.
  - intros [[id t] [Hin Hc]]; simpl in *. apply elem_of_map_to_list in Hin.
    destruct (airtableTs !! id) as [e|] eqn:Ha; [|done].
    destruct (changed e t) eqn:Hch; [|done]. exists id, t, e. naive_solver.
  - intros (id & t & e & Hp & Ha & Hch & ->). exists (id, t); simpl.
    split; [by apply elem_of_map_to_list|]. by rewrite Ha, Hch.
Qed.

Lemma in_ToDelete r :
  r ∈ ToDelete u ↔
  ∃ id transactionTime,
    airtableTs !! id = Some r ∧ plaidTs !! id = None
    ∧ GoTime.ParseDate (DateTime (Fields r)) = Some transactionTime
    ∧ GoTime.After transactionTime (cutoffOf now) = true.
Proof.
  destruct (updateAccount_Ok _ _ _ _ Hok) as [_ ->]; simpl.
  rewrite list_elem_of_omap. unfold deleteOf. split.
  - intros [[id t] [Hin Hc]]; cbn [fst snd] in *. apply elem_of_map_to_list in Hin.
    destruct (bool_decide _) eqn:Hids; [done|].
    apply bool_decide_eq_false in Hids. rewrite seen_keys in Hids.
    destruct (GoTime.ParseDate _) as [tt|] eqn:Hp; [|done].
    destruct (GoTime.After tt _) eqn:Haf; [|done].
    exists id, tt. apply eq_None_not_Some in Hids. naive_solver.
  - intros (id & tt & Ha & Hp & Hparse & Haf). exists (id, r); cbn [fst snd].
    split; [by apply elem_of_map_to_list|].
    rewrite bool_decide_eq_false_2; [by rewrite Hparse, Haf|].
    rewrite seen_keys. by apply eq_None_not_Some.
Qed.
End Membership.

(** *** The maps [Sync] passes are keyed by the records' own ids *)

Definition keyed (m : gmap string TransactionRecord) : Prop :=
  ∀ id t, m !! id = Some t → PlaidID (Fields t) = id.

Definition arranged (ret : gmap string (gmap string TransactionRecord)) : Prop :=
  ∀ acct m id t, ret !! acct = Some m → m !! id = Some t →
    AccountID (Fields t) = acct ∧ PlaidID (Fields t) = id.

Lemma arranged_step ret t :
  arranged ret →
  arranged (<[AccountID (Fields t) :=
              <[PlaidID (Fields t) := t]> (default ∅ (ret !! AccountID (Fields t)))]> ret).
Proof.
  intros Hinv acct m id t' Hm Ht'.
  destruct (decide (AccountID (Fields t) = acct)) as [<-|Hne].
  - rewrite lookup_insert_eq in Hm. injection Hm as <-.
    destruct (decide (PlaidID (Fields t) = id)) as [<-|Hne].
    + rewrite lookup_insert_eq in Ht'. by injection Ht' as <-.
    + rewrite lookup_insert_ne in Ht' by done.
      destruct (ret !! AccountID (Fields t)) as [m0|] eqn:Hm0; simpl in Ht'.
      * eapply Hinv; eauto.
      * by rewrite lookup_empty in Ht'.
  - rewrite lookup_insert_ne in Hm by done. eapply Hinv; eauto.
Qed.

Lemma byAccountIDbyTransactionID_arranged ts : arranged (byAccountIDbyTransactionID ts).
Proof.
  unfold byAccountIDbyTransactionID.
  assert (Hgen : ∀ ret, arranged ret →
    arranged (fold_left
      (λ ret t, <[AccountID (Fields t) :=
                   <[PlaidID (Fields t) := t]> (default ∅ (ret !! AccountID (Fields t)))]> ret)
      ts ret)).
  { induction ts as [|t ts IH]; intros ret Hret; simpl; [done|].
    apply IH. by apply arranged_step. }
  apply Hgen. intros acct m id t Hm. by rewrite lookup_empty in Hm.
Qed.

Lemma setID_Fields t id : Fields (setID t id) = Fields t.
Proof. reflexivity. Qed.

Lemma setID_ID t id : ID (Record_ (setID t id)) = id.
Proof. reflexivity. Qed.

End AirtableFacts.

(* ===================================================================== *)
(** ** What the older engine computes *)
(* ===================================================================== *)

Module AirtableV0Facts.
Import AirtableV0.

Lemma sourceLoop_ids airtableTs (l : list (string * TransactionRecord)) ids u :
  (fold_left (λ st kv, sourceBody airtableTs kv st) l (ids, u)).1
  = list_to_set l.*1 ∪ ids.
Proof.
  revert ids u. induction l as [|[id t] l IH]; intros ids u; simpl.
  - set_solver.
  - destruct (airtableTs !! id) as [e|].
    + destruct (bool_decide _); rewrite IH; set_solver.
    + rewrite IH. set_solver.
Qed.

Lemma mirrorLoop_keeps ids (l : list (string * TransactionRecord)) u r :
  r ∈ ToDelete u → r ∈ ToDelete (fold_left (λ u kv, mirrorBody ids kv u) l u).
Proof.
  revert u. induction l as [|[id t] l IH]; intros u Hr; simpl; [done|].
  apply IH. destruct (bool_decide _); simpl; [done|].
  apply elem_of_app. by left.
Qed.

Lemma mirrorLoop_adds ids (l : list (string * TransactionRecord)) u id t :
  (id, t) ∈ l → id ∉ ids →
  t ∈ ToDelete (fold_left (λ u kv, mirrorBody ids kv u) l u).
Proof.
  revert u. induction l as [|[id' t'] l IH]; intros u Hin Hids; simpl.
  - by apply elem_of_nil in Hin.
  - apply elem_of_cons in Hin as [Heq|Hin].
    + injection Heq as <- <-. apply mirrorLoop_keeps.
      rewrite bool_decide_eq_false_2 by done. simpl.
      apply elem_of_app. right. by apply list_elem_of_singleton.
    + by apply IH.
Qed.

(** The older engine deletes every mirror-only record, whatever its date. *)
Lemma updateAccount_deletes_mirror_only
    (plaidTs airtableTs : gmap string TransactionRecord) id t :
  airtableTs !! id = Some t → plaidTs !! id = None →
  t ∈ ToDelete (updateAccount plaidTs airtableTs).
Proof.
  intros Ha Hp. unfold updateAccount.
  pose proof (sourceLoop_ids airtableTs (map_to_list plaidTs) ∅ emptyUpdate) as Hids.
  destruct (fold_left _ (map_to_list plaidTs) _) as [ids u]. simpl in Hids. subst ids.
  apply (mirrorLoop_adds _ _ _ id); [by apply elem_of_map_to_list|].
  rewrite elem_of_union, elem_of_list_to_set, list_elem_of_fmap.
  intros [[[k t'] [-> Hin]]|Hin]; [|set_solver].
  apply elem_of_map_to_list in Hin. simpl in Hp. congruence.
Qed.

Lemma sourceLoop_keeps airtableTs (l : list (string * TransactionRecord)) ids u :
  (∀ r, r ∈ ToCreate u →
        r ∈ ToCreate (fold_left (λ st kv, sourceBody airtableTs kv st) l (ids, u)).2) ∧
  (∀ r, r ∈ ToDelete u →
        r ∈ ToDelete (fold_left (λ st kv, sourceBody airtableTs kv st) l (ids, u)).2).
Proof.
  revert ids u. induction l as [|[id t] l IH]; intros ids u; simpl; [done|].
  destruct (airtableTs !! id) as [e|]; [destruct (bool_decide _)|];
    split; intros r Hr; apply IH; simpl; rewrite ?elem_of_app; auto.
Qed.

Lemma sourceLoop_adds airtableTs (l : list (string * TransactionRecord)) ids u id t existing :
  (id, t) ∈ l → airtableTs !! id = Some existing →
  Pending (Fields existing) ≠ Pending (Fields t) →
  t ∈ ToCreate (fold_left (λ st kv, sourceBody airtableTs kv st) l (ids, u)).2
  ∧ setID t (ID (Record_ existing))
      ∈ ToDelete (fold_left (λ st kv, sourceBody airtableTs kv st) l (ids, u)).2.
Proof.
  revert ids u. induction l as [|[id' t'] l IH]; intros ids u Hin Ha Hne.
  - by apply elem_of_nil in Hin.
  - apply elem_of_cons in Hin as [Heq|Hin]; [|simpl; destruct (airtableTs !! id');
      [destruct (bool_decide _)|]; by apply IH].
    injection Heq as <- <-. simpl. rewrite Ha.
    rewrite bool_decide_eq_true_2 by done.
    split; apply sourceLoop_keeps; simpl; apply elem_of_app; right;
      by apply list_elem_of_singleton.
Qed.

Lemma mirrorLoop_ToCreate ids (l : list (string * TransactionRecord)) u :
  ToCreate (fold_left (λ u kv, mirrorBody ids kv u) l u) = ToCreate u.
Proof.
  revert u. induction l as [|[id t] l IH]; intros u; simpl; [done|].
  rewrite IH. by destruct (bool_decide _).
Qed.

(** The older engine turns a changed Pending flag into a create of the
    source record and a delete of the same record under the mirror's id. *)
Lemma updateAccount_delete_create
    (plaidTs airtableTs : gmap string TransactionRecord) id t existing :
  plaidTs !! id = Some t → airtableTs !! id = Some existing →
  Pending (Fields existing) ≠ Pending (Fields t) →
  t ∈ ToCreate (updateAccount plaidTs airtableTs)
  ∧ setID t (ID (Record_ existing)) ∈ ToDelete (updateAccount plaidTs airtableTs).
Proof.
  intros Hp Ha Hne. unfold updateAccount.
  assert (Hin : (id, t) ∈ map_to_list plaidTs) by (by apply elem_of_map_to_list).
  pose proof (sourceLoop_adds airtableTs _ ∅ emptyUpdate _ _ _ Hin Ha Hne) as [HC HD].
  destruct (fold_left _ (map_to_list plaidTs) _) as [ids u]. simpl in *.
  split; [by rewrite mirrorLoop_ToCreate|by apply mirrorLoop_keeps].
Qed.

End AirtableV0Facts.

(* ===================================================================== *)
(** ** Properties of the reconciliation engine *)
(* ===================================================================== *)

Module EngineProps.
Import Airtable AirtableFacts.

(** The key of a record: [(AccountID, RemoteID)]. *)
Definition key (t : TransactionRecord) : string * string :=
  (AccountID (Fields t), PlaidID (Fields t)).

Definition keyV0 (t : AirtableV0.TransactionRecord) : string * string :=
  (AirtableV0.AccountID (AirtableV0.Fields t), AirtableV0.PlaidID (AirtableV0.Fields t)).

(** No key of [l1] is a key of [l2]. *)
Definition disjointKeys (l1 l2 : list TransactionRecord) : Prop :=
  ∀ r1 r2, r1 ∈ l1 → r2 ∈ l2 → key r1 ≠ key r2.

Lemma After_not_Before d c : GoTime.Before d c = true → GoTime.After d c = false.
Proof. unfold GoTime.Before, GoTime.After. intros H. apply Z.ltb_lt in H. apply Z.ltb_ge. lia. Qed.

(** With maps keyed by the records' ids, each plan set holds keys of one
    kind only. *)
Lemma plan_keys now (plaidTs airtableTs : gmap string TransactionRecord) u :
  keyed plaidTs → keyed airtableTs →
  updateAccount now plaidTs airtableTs = Ok u →
  (∀ r, r ∈ ToCreate u →
        is_Some (plaidTs !! PlaidID (Fields r)) ∧ airtableTs !! PlaidID (Fields r) = None) ∧
  (∀ r, r ∈ ToUpdate u →
        ∃ t existing, plaidTs !! PlaidID (Fields r) = Some t
                      ∧ airtableTs !! PlaidID (Fields r) = Some existing
                      ∧ changed existing t = true) ∧
  (∀ r, r ∈ ToDelete u →
        plaidTs !! PlaidID (Fields r) = None ∧ is_Some (airtableTs !! PlaidID (Fields r))).
Proof.
  intros Kp Ka Hok. split_and!; intros r Hr.
  - apply (in_ToCreate _ _ _ _ Hok) in Hr as (id & Hp & Ha).
    rewrite (Kp _ _ Hp). eauto.
  - apply (in_ToUpdate _ _ _ _ Hok) in Hr as (id & t & e & Hp & Ha & Hch & ->).
    rewrite setID_Fields, (Kp _ _ Hp). eauto.
  - apply (in_ToDelete _ _ _ _ Hok) in Hr as (id & tt & Ha & Hp & _).
    rewrite (Ka _ _ Ha). eauto.
Qed.

Lemma plan_disjoint now (plaidTs airtableTs : gmap string TransactionRecord) u :
  keyed plaidTs → keyed airtableTs →
  updateAccount now plaidTs airtableTs = Ok u →
  disjointKeys (ToCreate u) (ToUpdate u)
  ∧ disjointKeys (ToCreate u) (ToDelete u)
  ∧ disjointKeys (ToUpdate u) (ToDelete u).
Proof.
  intros Kp Ka Hok.
  destruct (plan_keys _ _ _ _ Kp Ka Hok) as (HC & HU & HD).
  unfold disjointKeys, key. split_and!; intros r1 r2 H1 H2 Heq;
    injection Heq as _ Heq.
  - destruct (HC _ H1) as [_ Ha]. destruct (HU _ H2) as (t & e & _ & Ha' & _).
    rewrite Heq in Ha. congruence.
  - destruct (HC _ H1) as [[t Hp] _]. destruct (HD _ H2) as [Hp' _].
    rewrite Heq in Hp. congruence.
  - destruct (HU _ H1) as (t & e & Hp & _). destruct (HD _ H2) as [Hp' _].
    rewrite Heq in Hp. congruence.
Qed.

Lemma arranged_keyed ret acct :
  arranged ret → keyed (default ∅ (ret !! acct)).
Proof.
  intros Har id t Hlk. destruct (ret !! acct) as [m|] eqn:Hm; simpl in Hlk.
  - by destruct (Har _ _ _ _ Hm Hlk).
  - by rewrite lookup_empty in Hlk.
Qed.

Lemma accountPlan_inv now ps ms acct r :
  accountPlan now ps ms acct = Some r →
  ∃ plaidTs, byAccountIDbyTransactionID ps !! acct = Some plaidTs
    ∧ r = updateAccount now plaidTs (default ∅ (byAccountIDbyTransactionID ms !! acct))
    ∧ keyed plaidTs
    ∧ keyed (default ∅ (byAccountIDbyTransactionID ms !! acct)).
Proof.
  unfold accountPlan. intros H.
  destruct (byAccountIDbyTransactionID ps !! acct) as [p|] eqn:Hp; [|done].
  injection H as <-. exists p. split_and!; [done|done| |].
  - replace p with (default ∅ (byAccountIDbyTransactionID ps !! acct)) by (by rewrite Hp).
    apply arranged_keyed, byAccountIDbyTransactionID_arranged.
  - apply arranged_keyed, byAccountIDbyTransactionID_arranged.
Qed.

End EngineProps.

Example sample_plan :
  Airtable.accountPlan Sample.now Sample.source Sample.mirror "acct" = Some (Ok Sample.plan).
Proof. vm_compute. reflexivity. Qed.

Example sample_updateAccount :
  Airtable.updateAccount Sample.now Sample.plaidTs Sample.airtableTs = Ok Sample.plan.
Proof. vm_compute. reflexivity. Qed.

Example sample_plan_panics :
  Airtable.accountPlan Sample.now Sample.source Sample.badMirror "acct"
  = Some (Panic "10/26/2026").
Proof. vm_compute. reflexivity. Qed.

(* ===================================================================== *)
(** ** The engine's claims *)
(* ===================================================================== *)

Import Airtable AirtableFacts EngineProps.

(** C1 (as amended).  Cutoff guard of the update-capable engine: when no
    mirror-only date is malformed [updateAccount] returns a plan in which a
    mirror-only record dated before "now minus one month" is never in
    ToDelete and one dated after it always is.  The cutoff is
    [time.Now().AddDate(0, -1, 0)] for every clock reading [now] in every
    location, fixed offset or not; a record's date is midnight UTC of the
    day it names.  The older engine of airtable_transactions.go has no
    cutoff: it schedules every mirror-only record for deletion, whatever
    its date. *)
Theorem cutoff_guard :
  (∀ now (plaidTs airtableTs : gmap string TransactionRecord),
     ¬ hasMalformed plaidTs airtableTs →
     ∃ u, updateAccount now plaidTs airtableTs = Ok u ∧
       ∀ id t d,
         airtableTs !! id = Some t → plaidTs !! id = None →
         GoTime.ParseDate (DateTime (Fields t)) = Some d →
         (GoTime.Before d (GoTime.AddDate now 0 (-1) 0) = true → ¬ (t ∈ ToDelete u)) ∧
         (GoTime.After d (GoTime.AddDate now 0 (-1) 0) = true → t ∈ ToDelete u))
  ∧
  (∀ (plaidTs airtableTs : gmap string AirtableV0.TransactionRecord) id t,
     airtableTs !! id = Some t → plaidTs !! id = None →
     t ∈ AirtableV0.ToDelete (AirtableV0.updateAccount plaidTs airtableTs)).
Proof.
  split.
  - intros now plaidTs airtableTs HN.
    destruct (updateAccount_returns now _ _ HN) as [u Hok].
    exists u. split; [done|]. intros id t d Ha Hp Hparse. split.
    + intros Hbefore Hin.
      apply (in_ToDelete _ _ _ _ Hok) in Hin as (id' & tt & _ & _ & Hparse' & Hafter).
      rewrite Hparse in Hparse'. injection Hparse' as <-.
      apply After_not_Before in Hbefore. unfold cutoffOf in Hafter. congruence.
    + intros Hafter. apply (in_ToDelete _ _ _ _ Hok). exists id, d. by split_and!.
  - apply AirtableV0Facts.updateAccount_deletes_mirror_only.
Qed.

(** The claim as stated fails on the older engine: A2, dated 40 days before
    [Sample.now] and absent from the source, is scheduled for deletion. *)
Lemma cutoff_guard_fails_older_engine :
  ∃ t d,
    Sample.airtableTsV0 !! "A2"%string = Some t
    ∧ Sample.plaidTsV0 !! "A2"%string = None
    ∧ GoTime.ParseDate (AirtableV0.DateTime (AirtableV0.Fields t)) = Some d
    ∧ GoTime.Before d (GoTime.AddDate Sample.now 0 (-1) 0) = true
    ∧ t ∈ AirtableV0.ToDelete (AirtableV0.updateAccount Sample.plaidTsV0 Sample.airtableTsV0).
Proof.
  exists (Sample.recordV0 "rec2" "A2" "acct" false "2026-09-21"),
         (GoTime.Date 2026 9 21 0 GoTime.UTC).
  split_and!; try (vm_compute; reflexivity).
  apply AirtableV0Facts.updateAccount_deletes_mirror_only with (id := "A2"%string);
    vm_compute; reflexivity.
Qed.

(** The scenario of the specification on the update-capable engine: A2 (40
    days old) stays, A3 (5 days old) is deleted.  And a clock in a location
    whose offset changed within the month: at 00:30 on 2026-11-15 in London
    the cutoff is 23:30 UTC on 2026-10-14, so the row dated 2026-10-15 is
    deleted. *)
Lemma cutoff_guard_witness :
  (∃ u, updateAccount Sample.now Sample.plaidTs Sample.airtableTs = Ok u
        ∧ ¬ (Sample.record "rec2" "A2" "acct" false "2026-09-21" "" ∈ ToDelete u)
        ∧ Sample.record "rec3" "A3" "acct" false "2026-10-26" "" ∈ ToDelete u)
  ∧
  (∃ u, updateAccount Sample.londonNow Sample.plaidTs Sample.londonAirtableTs = Ok u
        ∧ Sample.record "rec7" "A7" "acct" false "2026-10-15" "" ∈ ToDelete u).
Proof.
  split.
  - destruct (proj1 cutoff_guard Sample.now Sample.plaidTs Sample.airtableTs)
      as (u & Hok & H).
    + intros (id & t & Ha & Hp & Hparse).
      assert (Hin : (id, t) ∈ map_to_list Sample.airtableTs) by (by apply elem_of_map_to_list).
      vm_compute in Hin.
      repeat (apply elem_of_cons in Hin as [Hin|Hin];
              [injection Hin as -> ->; vm_compute in Hparse; discriminate|]).
      by apply elem_of_nil in Hin.
    + exists u. split; [exact Hok|]. split.
      * apply (H "A2"%string _ (GoTime.Date 2026 9 21 0 GoTime.UTC)); vm_compute; reflexivity.
      * apply (H "A3"%string _ (GoTime.Date 2026 10 26 0 GoTime.UTC)); vm_compute; reflexivity.
  - destruct (proj1 cutoff_guard Sample.londonNow Sample.plaidTs Sample.londonAirtableTs)
      as (u & Hok & H).
    + intros (id & t & Ha & Hp & Hparse).
      assert (Hin : (id, t) ∈ map_to_list Sample.londonAirtableTs)
        by (by apply elem_of_map_to_list).
      vm_compute in Hin.
      repeat (apply elem_of_cons in Hin as [Hin|Hin];
              [injection Hin as -> ->; vm_compute in Hparse; discriminate|]).
      by apply elem_of_nil in Hin.
    + exists u. split; [exact Hok|].
      apply (H "A7"%string _ (GoTime.Date 2026 10 15 0 GoTime.UTC)); vm_compute; reflexivity.
Defined.

(** C2 (as amended).  For the plan [Sync] computes for an account with the
    update-capable engine, ToCreate, ToUpdate and ToDelete are pairwise
    disjoint by [(AccountID, RemoteID)] key.  The older engine has no
    ToUpdate: a key present on both sides whose Pending flag changed is in
    both its ToCreate and its ToDelete (update is delete + create). *)
Theorem plan_sets_disjoint :
  (∀ now (plaidTransactions airtableTransactions : list TransactionRecord) accountID u,
     accountPlan now plaidTransactions airtableTransactions accountID = Some (Ok u) →
     disjointKeys (ToCreate u) (ToUpdate u)
     ∧ disjointKeys (ToCreate u) (ToDelete u)
     ∧ disjointKeys (ToUpdate u) (ToDelete u))
  ∧
  (∀ (plaidTs airtableTs : gmap string AirtableV0.TransactionRecord) id t existing,
     plaidTs !! id = Some t → airtableTs !! id = Some existing →
     AirtableV0.Pending (AirtableV0.Fields existing) ≠ AirtableV0.Pending (AirtableV0.Fields t) →
     ∃ r1 r2,
       r1 ∈ AirtableV0.ToCreate (AirtableV0.updateAccount plaidTs airtableTs)
       ∧ r2 ∈ AirtableV0.ToDelete (AirtableV0.updateAccount plaidTs airtableTs)
       ∧ keyV0 r1 = keyV0 t ∧ keyV0 r2 = keyV0 t).
Proof.
  split.
  - intros now ps ms acct u Hplan.
    apply accountPlan_inv in Hplan as (p & _ & Hok & Kp & Ka).
    symmetry in Hok. by apply (plan_disjoint _ _ _ _ Kp Ka Hok).
  - intros p a id t e Hp Ha Hne.
    destruct (AirtableV0Facts.updateAccount_delete_create _ _ _ _ _ Hp Ha Hne) as [HC HD].
    exists t, (AirtableV0.setID t (AirtableV0.ID (AirtableV0.Record_ e))). by split_and!.
Qed.

(** The claim as stated fails on the older engine: A1, pending in the source
    and settled in the mirror, is in ToCreate and in ToDelete. *)
Lemma plan_sets_overlap_older_engine :
  ∃ r1 r2,
    r1 ∈ AirtableV0.ToCreate (AirtableV0.updateAccount Sample.plaidTsV0 Sample.airtableTsV0)
    ∧ r2 ∈ AirtableV0.ToDelete (AirtableV0.updateAccount Sample.plaidTsV0 Sample.airtableTsV0)
    ∧ keyV0 r1 = keyV0 r2.
Proof.
  exists (Sample.recordV0 "A1" "A1" "acct" true "2026-10-30"),
         (Sample.recordV0 "rec1" "A1" "acct" true "2026-10-30").
  split_and!; [| |reflexivity].
  - vm_compute. apply list_elem_of_here.
  - vm_compute. apply list_elem_of_here.
Qed.

Lemma plan_sets_disjoint_witness :
  accountPlan Sample.now Sample.source Sample.mirror "acct" = Some (Ok Sample.plan)
  ∧ disjointKeys (ToCreate Sample.plan) (ToUpdate Sample.plan)
  ∧ disjointKeys (ToCreate Sample.plan) (ToDelete Sample.plan)
  ∧ disjointKeys (ToUpdate Sample.plan) (ToDelete Sample.plan).
Proof.
  split; [exact sample_plan|].
  exact (proj1 plan_sets_disjoint Sample.now Sample.source Sample.mirror "acct"%string
           Sample.plan sample_plan).
Defined.

(** C3.  Completeness: with maps keyed by the records' ids (as [Sync]
    builds them), every key of the source that the mirror lacks has its
    record in ToCreate, and a key present on both sides whose Pending flag
    and Address are unchanged is the key of no record of ToUpdate or
    ToDelete. *)
Theorem plan_complete now (plaidTs airtableTs : gmap string TransactionRecord) u :
  keyed plaidTs → keyed airtableTs →
  updateAccount now plaidTs airtableTs = Ok u →
  (∀ id t, plaidTs !! id = Some t → airtableTs !! id = None → t ∈ ToCreate u) ∧
  (∀ id t existing,
     plaidTs !! id = Some t → airtableTs !! id = Some existing →
     Pending (Fields existing) = Pending (Fields t) →
     Address (Fields existing) = Address (Fields t) →
     ∀ r, PlaidID (Fields r) = id → ¬ (r ∈ ToUpdate u) ∧ ¬ (r ∈ ToDelete u)).
Proof.
  intros Kp Ka Hok. split.
  - intros id t Hp Ha. apply (in_ToCreate _ _ _ _ Hok). eauto.
  - intros id t e Hp Ha HP HA r Hr.
    destruct (plan_keys _ _ _ _ Kp Ka Hok) as (_ & HU & HD). split; intros Hin.
    + destruct (HU _ Hin) as (t' & e' & Hp' & Ha' & Hch). rewrite Hr in Hp', Ha'.
      assert (t' = t) as -> by congruence. assert (e' = e) as -> by congruence.
      unfold changed in Hch. rewrite HP, HA in Hch.
      rewrite !bool_decide_eq_false_2 in Hch by (intros H; by apply H). done.
    + destruct (HD _ Hin) as [Hp' _]. rewrite Hr in Hp'. congruence.
Qed.

Lemma sample_keyed : keyed Sample.plaidTs ∧ keyed Sample.airtableTs.
Proof. split; apply arranged_keyed, byAccountIDbyTransactionID_arranged. Qed.

Lemma plan_complete_witness :
  keyed Sample.plaidTs ∧ keyed Sample.airtableTs
  ∧ updateAccount Sample.now Sample.plaidTs Sample.airtableTs = Ok Sample.plan
  ∧ Sample.record "A5" "A5" "acct" false "2026-10-29" "3 High St" ∈ ToCreate Sample.plan
  ∧ ∀ r, PlaidID (Fields r) = "A4"%string →
         ¬ (r ∈ ToUpdate Sample.plan) ∧ ¬ (r ∈ ToDelete Sample.plan).
Proof.
  destruct sample_keyed as [Kp Ka]. split_and!; [exact Kp|exact Ka|exact sample_updateAccount| |].
  - apply (proj1 (plan_complete Sample.now Sample.plaidTs Sample.airtableTs Sample.plan
                    Kp Ka sample_updateAccount) "A5"%string); vm_compute; reflexivity.
  - apply (proj2 (plan_complete Sample.now Sample.plaidTs Sample.airtableTs Sample.plan
                    Kp Ka sample_updateAccount) "A4"%string
             (Sample.record "A4" "A4" "acct" false "2026-10-12" "2 Side St")
             (Sample.record "rec4" "A4" "acct" false "2026-10-12" "2 Side St"));
      vm_compute; reflexivity.
Defined.

(** C4.  Update identity preservation: every record of ToUpdate is a source
    record (same fields) whose record id is the id of the mirror record
    stored under the same key. *)
Theorem update_carries_mirror_identity now
    (plaidTs airtableTs : gmap string TransactionRecord) u r :
  updateAccount now plaidTs airtableTs = Ok u →
  r ∈ ToUpdate u →
  ∃ id t existing,
    plaidTs !! id = Some t ∧ airtableTs !! id = Some existing
    ∧ Fields r = Fields t
    ∧ ID (Record_ r) = ID (Record_ existing).
Proof.
  intros Hok Hin.
  apply (in_ToUpdate _ _ _ _ Hok) in Hin as (id & t & e & Hp & Ha & _ & ->).
  exists id, t, e. by split_and!.
Qed.

Lemma update_carries_mirror_identity_witness :
  updateAccount Sample.now Sample.plaidTs Sample.airtableTs = Ok Sample.plan
  ∧ Sample.record "rec1" "A1" "acct" true "2026-10-30" "1 Main St" ∈ ToUpdate Sample.plan
  ∧ ∃ id t existing,
      Sample.plaidTs !! id = Some t ∧ Sample.airtableTs !! id = Some existing
      ∧ Fields (Sample.record "rec1" "A1" "acct" true "2026-10-30" "1 Main St") = Fields t
      ∧ ID (Record_ (Sample.record "rec1" "A1" "acct" true "2026-10-30" "1 Main St"))
        = ID (Record_ existing).
Proof.
  assert (Hin : Sample.record "rec1" "A1" "acct" true "2026-10-30" "1 Main St"
                ∈ ToUpdate Sample.plan) by apply list_elem_of_here.
  split_and!; [exact sample_updateAccount|exact Hin|].
  exact (update_carries_mirror_identity Sample.now Sample.plaidTs Sample.airtableTs
           Sample.plan _ sample_updateAccount Hin).
Defined.

(** C9.  A mirror record that is a deletion candidate (its key is absent
    from the source) and whose date the layout 2006-01-02 rejects makes
    [updateAccount] panic: no plan is returned, the record is not skipped. *)
Theorem malformed_date_panics now
    (plaidTs airtableTs : gmap string TransactionRecord) id t :
  airtableTs !! id = Some t → plaidTs !! id = None →
  GoTime.ParseDate (DateTime (Fields t)) = None →
  ∃ err, updateAccount now plaidTs airtableTs = Panic err.
Proof.
  intros Ha Hp Hparse. apply updateAccount_Panic. exists id, t. by split_and!.
Qed.

Lemma malformed_date_panics_witness :
  ∃ err, updateAccount Sample.now Sample.plaidTs
           (default ∅ (byAccountIDbyTransactionID Sample.badMirror !! "acct"%string))
         = Panic err.
Proof.
  apply (malformed_date_panics Sample.now Sample.plaidTs _ "A6"%string
           (Sample.record "rec6" "A6" "acct" false "10/26/2026" ""));
    vm_compute; reflexivity.
Defined.

(* ===================================================================== *)
(** ** What the fetcher does, against any server and against a paged one *)
(* ===================================================================== *)

Module FetcherFacts.
Import Plaid Fetcher.

(** The page of a successful exchange. *)
Definition pageOf (x : exchange) : option (list Transaction) :=
  match x.2 with
  | inl res => Some (Transactions res)
  | inr _ => None
  end.

Definition failed (x : exchange) : option error :=
  match x.2 with
  | inl _ => None
  | inr err => Some err
  end.

Section Server.
Variable St : Type.
Variable Execute : TransactionsGetRequest → St → (TransactionsGetResponse + error) * St.

Lemma pageLoop_unfold fuel total req transactions st log :
  pageLoop St Execute fuel total req transactions st log
  = if Z.of_nat (length transactions) <? total then
      match fuel with
      | O => (None, st, log)
      | S fuel' =>
          match Options req with
          | Some o =>
              match Offset o, Count o with
              | Some offset, Some count =>
                  let req' := withOptions req (SetOffset o (wrap32 (offset + count))) in
                  match Execute req' st with
                  | (inr err, st') =>
                      (Some (Ok (transactions, Some err)), st', log ++ [(req', inr err)])
                  | (inl res, st') =>
                      pageLoop St Execute fuel' total req' (transactions ++ Transactions res) st'
                        (log ++ [(req', inl res)])
                  end
              | _, _ => (Some (Panic "nil pointer dereference"), st, log)
              end
          | None => (Some (Panic "nil pointer dereference"), st, log)
          end
      end
    else (Some (Ok (transactions, None)), st, log).
Proof. destruct fuel; reflexivity. Qed.

(** An error answer is the last exchange of a run, and the run returns it. *)
Definition errorsAreFinal (out : option (result returned)) (log : list exchange) : Prop :=
  ∀ i rq err, log !! i = Some (rq, inr err) →
    S i = length log ∧ ∃ transactions, out = Some (Ok (transactions, Some err)).

Lemma pageLoop_errors fuel total req transactions st log out st' log' :
  Forall (λ x, failed x = None) log →
  pageLoop St Execute fuel total req transactions st log = (out, st', log') →
  errorsAreFinal out log'.
Proof.
  revert req transactions st log.
  induction fuel as [|fuel IH]; intros req transactions st log Hlog Hrun;
    rewrite pageLoop_unfold in Hrun.
  all: assert (Hnone : ∀ out0, errorsAreFinal out0 log).
  1,3: intros out0 i rq err Hi; rewrite Forall_forall in Hlog;
       apply list_elem_of_lookup_2 in Hi; by apply Hlog in Hi.
  - destruct (_ <? _); injection Hrun as <- <- <-; apply Hnone.
  - destruct (_ <? _); [|injection Hrun as <- <- <-; apply Hnone].
    destruct (Options req) as [o|]; [|injection Hrun as <- <- <-; apply Hnone].
    destruct (Offset o) as [offset|]; [|injection Hrun as <- <- <-; apply Hnone].
    destruct (Count o) as [count|]; [|injection Hrun as <- <- <-; apply Hnone].
    cbv zeta in Hrun.
    destruct (Execute _ st) as [[res|err] st1].
    + eapply IH; [|exact Hrun]. apply Forall_app. split; [done|]. by constructor.
    + injection Hrun as <- <- <-. intros i rq err' Hi.
      destruct (decide (i < length log)%nat) as [Hlt|Hge].
      * rewrite lookup_app_l in Hi by done. exfalso.
        rewrite Forall_forall in Hlog. apply list_elem_of_lookup_2 in Hi.
        by apply Hlog in Hi.
      * assert (Hle : (length log ≤ i)%nat) by lia.
        rewrite (lookup_app_r _ _ _ Hle) in Hi.
        apply list_lookup_singleton_Some in Hi as [Hi Heq].
        injection Heq as <- <-. rewrite length_app. simpl. split; [lia|eauto].
Qed.

Lemma AllTransactions_errors fuel req st out st' log :
  AllTransactions St Execute fuel req st = (out, st', log) →
  errorsAreFinal out log.
Proof.
  unfold AllTransactions. destruct (Execute req st) as [[res|err] st1]; intros Hrun.
  - eapply pageLoop_errors; [|exact Hrun]. by repeat constructor.
  - injection Hrun as <- <- <-. intros [|i] rq err' Hi; [|done].
    injection Hi as <- <-. eauto.
Qed.

(** A run only appends to the log. *)
Lemma pageLoop_extends fuel total req transactions st log out st' log' :
  pageLoop St Execute fuel total req transactions st log = (out, st', log') →
  ∃ ext, log' = log ++ ext.
Proof.
  revert req transactions st log.
  induction fuel as [|fuel IH]; intros req transactions st log Hrun;
    rewrite pageLoop_unfold in Hrun;
    destruct (Z.of_nat (length transactions) <? total);
    try (injection Hrun as <- <- <-; exists []; by rewrite app_nil_r).
  destruct (Options req) as [o|];
    [|injection Hrun as <- <- <-; exists []; by rewrite app_nil_r].
  destruct (Offset o); [|injection Hrun as <- <- <-; exists []; by rewrite app_nil_r].
  destruct (Count o); [|injection Hrun as <- <- <-; exists []; by rewrite app_nil_r].
  cbv zeta in Hrun. destruct (Execute _ st) as [[r|e] s1].
  - apply IH in Hrun as [ext ->]. eexists. by rewrite <- app_assoc.
  - injection Hrun as <- <- <-. by eexists.
Qed.

(** The first page came short of the total and a pointer of the options is
    nil: the offset step panics before a second request is made. *)
Lemma AllTransactions_nil_options fuel req st res st1 :
  Execute req st = (inl res, st1) →
  Z.of_nat (length (Transactions res)) < TotalTransactions res →
  (match Options req with
   | Some o => Offset o = None ∨ Count o = None
   | None => True
   end) →
  AllTransactions St Execute (S fuel) req st
  = (Some (Panic "nil pointer dereference"), st1, [(req, inl res)]).
Proof.
  intros Hex Hlt Hnil. unfold AllTransactions. rewrite Hex, pageLoop_unfold.
  rewrite app_nil_l. apply Z.ltb_lt in Hlt. rewrite Hlt.
  destruct (Options req) as [o|]; [|done].
  destruct (Offset o), (Count o); destruct Hnil; done.
Qed.

(** With both pointers set the offset step issues the second request, at
    offset [*Offset + *Count]. *)
Lemma AllTransactions_second_request fuel req st res st1 o offset count :
  Execute req st = (inl res, st1) →
  Z.of_nat (length (Transactions res)) < TotalTransactions res →
  Options req = Some o → Offset o = Some offset → Count o = Some count →
  ∃ answer,
    (AllTransactions St Execute (S fuel) req st).2 !! 1%nat
    = Some (withOptions req (SetOffset o (wrap32 (offset + count))), answer).
Proof.
  intros Hex Hlt Ho Hoff Hcnt. unfold AllTransactions. rewrite Hex, pageLoop_unfold.
  rewrite app_nil_l. apply Z.ltb_lt in Hlt. rewrite Hlt, Ho, Hoff, Hcnt. cbv zeta.
  destruct (Execute _ st1) as [[res2|err] st2].
  - exists (inl res2).
    destruct (pageLoop St Execute fuel _ _ _ st2 _) as [[out s'] lg'] eqn:Hrun.
    apply pageLoop_extends in Hrun as [ext ->]. reflexivity.
  - exists (inr err). reflexivity.
Qed.

End Server.

End FetcherFacts.

Module PagedFacts.
Import Plaid Fetcher FetcherFacts.

Lemma wrap32_small z : 0 ≤ z ≤ 2147483647 → wrap32 z = z.
Proof. intros H. unfold wrap32. rewrite Z.mod_small by lia. lia. Qed.

Lemma omap_pageOf_inl rq res (ext : list exchange) :
  omap pageOf ((rq, inl res) :: ext) = Transactions res :: omap pageOf ext.
Proof. reflexivity. Qed.

Section Paged.
Variable db : list Transaction.
Variable P : nat.
Hypothesis HP : (1 ≤ P)%nat.
Hypothesis Hdb : Z.of_nat (length db) ≤ 2147483647.

(** Loop invariant against the paged server: [j] offset steps were taken,
    the request in hand asks for offset [j * P], the slice holds the first
    [(j + 1) * P] records, and exactly [r] more requests are needed. *)
Lemma pageLoop_paged r :
  ∀ j fuel req o log,
    Options req = Some o → Count o = Some (Z.of_nat P) →
    Offset o = Some (Z.of_nat (j * P)) →
    (length db ≤ (S j + r) * P)%nat →
    (∀ r', r = S r' → ((S j + r') * P < length db)%nat) →
    (r ≤ fuel)%nat →
    ∃ ext,
      pageLoop unit (pagedServer db) fuel (Z.of_nat (length db)) req (take (S j * P) db) tt log
      = (Some (Ok (db, None)), tt, log ++ ext)
      ∧ length ext = r
      ∧ take (S j * P) db ++ concat (omap pageOf ext) = db.
Proof.
  induction r as [|r IH]; intros j fuel req o log Ho Hcnt Hoff Hcover Hmin Hfuel;
    rewrite pageLoop_unfold.
  - assert (Hall : take (S j * P) db = db) by (apply take_ge; lia).
    rewrite Hall, Z.ltb_irrefl. exists []. by rewrite !app_nil_r.
  - specialize (Hmin r eq_refl).
    assert (Hlen : length (take (S j * P) db) = (S j * P)%nat) by (apply length_take_le; nia).
    rewrite Hlen.
    assert (Hlt : (Z.of_nat (S j * P) <? Z.of_nat (length db)) = true) by (apply Z.ltb_lt; nia).
    rewrite Hlt. destruct fuel as [|fuel]; [lia|].
    rewrite Ho, Hoff, Hcnt. cbv zeta.
    assert (Hoffset : wrap32 (Z.of_nat (j * P) + Z.of_nat P) = Z.of_nat (S j * P)).
    { rewrite wrap32_small; nia. }
    rewrite Hoffset. unfold pagedServer at 1.
    assert (Hpage : page db (withOptions req (SetOffset o (Z.of_nat (S j * P))))
                    = take P (drop (S j * P) db)).
    { unfold page, withOptions, SetOffset. cbn [Options Count Offset default].
      rewrite Hcnt. cbn [default from_option id]. by rewrite !Nat2Z.id. }
    rewrite Hpage. cbn [Transactions].
    rewrite take_take_drop.
    replace (S j * P + P)%nat with (S (S j) * P)%nat by lia.
    destruct (IH (S j) fuel (withOptions req (SetOffset o (Z.of_nat (S j * P))))
                (SetOffset o (Z.of_nat (S j * P)))
                (log ++ [(withOptions req (SetOffset o (Z.of_nat (S j * P))),
                          inl {| Transactions := take P (drop (S j * P) db);
                                 TotalTransactions := Z.of_nat (length db) |})]))
      as (ext & Hrun & Hext & Hcat); try done; try lia.
    eexists (_ :: ext). rewrite Hrun. split_and!.
    + by rewrite <- app_assoc.
    + simpl. by rewrite Hext.
    + rewrite omap_pageOf_inl, concat_cons. cbn [Transactions].
      rewrite app_assoc, take_take_drop.
      replace (S j * P + P)%nat with (S (S j) * P)%nat by lia. exact Hcat.
Qed.

(** The number of requests a fetch of [length db] records in pages of [P]
    takes: the first one, then one per further page. *)
Definition requestCount : nat :=
  Z.to_nat (Z.max 1 ((Z.of_nat (length db) + Z.of_nat P - 1) / Z.of_nat P)).

Lemma requestCount_spec :
  (1 ≤ requestCount)%nat
  ∧ (length db ≤ requestCount * P)%nat
  ∧ (∀ r', requestCount = S (S r') → (S r' * P < length db)%nat).
Proof.
  unfold requestCount.
  set (n := Z.of_nat (length db)). set (p := Z.of_nat P).
  assert (Hp : 1 ≤ p) by (unfold p; lia). assert (Hn : 0 ≤ n) by (unfold n; lia).
  pose proof (Z.div_mod (n + p - 1) p ltac:(lia)) as Hdm.
  pose proof (Z.mod_pos_bound (n + p - 1) p ltac:(lia)) as Hmod.
  set (c := (n + p - 1) / p) in *.
  assert (Hc : 0 ≤ c) by (apply Z.div_pos; lia).
  split_and!.
  - lia.
  - apply Nat2Z.inj_le. rewrite Nat2Z.inj_mul, Z2Nat.id by lia. fold n p. nia.
  - intros r' Hr. apply Nat2Z.inj_lt. rewrite Nat2Z.inj_mul. fold n p.
    assert (Hq : Z.max 1 c = Z.of_nat (S (S r'))) by lia.
    assert (c = Z.of_nat (S (S r'))) by lia. nia.
Qed.

Lemma AllTransactions_paged fuel req o :
  Options req = Some o → Count o = Some (Z.of_nat P) → Offset o = Some 0 →
  (requestCount ≤ S fuel)%nat →
  ∃ log,
    AllTransactions unit (pagedServer db) fuel req tt = (Some (Ok (db, None)), tt, log)
    ∧ length log = requestCount
    ∧ concat (omap pageOf log) = db.
Proof.
  intros Ho Hcnt Hoff Hfuel.
  destruct requestCount_spec as (H1 & Hcover & Hmin).
  destruct requestCount as [|r] eqn:Hr; [lia|].
  unfold AllTransactions, pagedServer at 1. rewrite app_nil_l.
  assert (Hpage : page db req = take (1 * P) db).
  { unfold page. rewrite Ho, Hcnt, Hoff. cbn [default from_option id].
    rewrite Nat2Z.id. change (Z.to_nat 0) with 0%nat. rewrite drop_0. f_equal. lia. }
  cbn [Transactions TotalTransactions]. rewrite Hpage.
  destruct (pageLoop_paged r 0 fuel req o
              [(req, inl {| Transactions := take (1 * P) db;
                            TotalTransactions := Z.of_nat (length db) |})])
    as (ext & Hrun & Hext & Hcat); try done; try lia.
  { intros r' ->. apply (Hmin r'). reflexivity. }
  eexists. split; [exact Hrun|]. split.
  - simpl. by rewrite Hext.
  - cbn [app]. rewrite omap_pageOf_inl, concat_cons. cbn [Transactions]. exact Hcat.
Qed.

End Paged.

End PagedFacts.

(* ===================================================================== *)
(** ** The fetcher's claims *)
(* ===================================================================== *)

Import Plaid Fetcher FetcherFacts.

(** Total 250, page size 100: three requests, 250 records. *)
Example fetch_250_in_pages_of_100 :
  ∃ log, AllTransactions unit (pagedServer (Feed.feed 250)) 5 Feed.request tt
         = (Some (Ok (Feed.feed 250, None)), tt, log)
         ∧ length log = 3%nat.
Proof. vm_compute. eexists. split; reflexivity. Qed.

(** C5 (as amended).  Pagination completeness: against a server that holds
    T distinct records and serves pages of the requested size P >= 1 from
    offset 0, the fetcher returns after max(1, ceil(T/P)) requests (the
    first request is always made) with exactly those T records, which are
    the delivered pages concatenated in order, without duplicates; for
    T = 0 the result is empty and the first request is the only one. *)
Theorem pagination_complete (db : list Transaction) (P fuel : nat) req o :
  Options req = Some o → Count o = Some (Z.of_nat P) → Offset o = Some 0 →
  (1 ≤ P)%nat → Z.of_nat (length db) ≤ 2147483647 → NoDup db →
  (PagedFacts.requestCount db P ≤ S fuel)%nat →
  ∃ transactions log,
    AllTransactions unit (pagedServer db) fuel req tt
    = (Some (Ok (transactions, None)), tt, log)
    ∧ Z.of_nat (length log)
      = Z.max 1 ((Z.of_nat (length db) + Z.of_nat P - 1) / Z.of_nat P)
    ∧ length transactions = length db
    ∧ transactions = concat (omap pageOf log)
    ∧ NoDup transactions
    ∧ (length db = 0%nat → transactions = [] ∧ length log = 1%nat).
Proof.
  intros Ho Hcnt Hoff HP Hdb Hnd Hfuel.
  destruct (PagedFacts.AllTransactions_paged db P HP Hdb fuel req o Ho Hcnt Hoff Hfuel)
    as (log & Hrun & Hlen & Hcat).
  exists db, log. split_and!; try done.
  - rewrite Hlen. unfold PagedFacts.requestCount. lia.
  - intros Hz. split; [by apply nil_length_inv|].
    rewrite Hlen. unfold PagedFacts.requestCount. rewrite Hz.
    change (Z.of_nat 0) with 0. rewrite Z.add_0_l, Z.div_small by lia. reflexivity.
Qed.

(** The claim as stated fails at T = 0: the one request that is made is one
    more than ceil(0/100) = 0. *)
Lemma pagination_zero_total_one_request :
  ∃ log, AllTransactions unit (pagedServer []) 0 Feed.request tt
         = (Some (Ok ([], None)), tt, log)
         ∧ length log = 1%nat
         ∧ (Z.of_nat (length (@nil Transaction)) + 100 - 1) / 100 = 0.
Proof. vm_compute. eexists. split_and!; reflexivity. Qed.

Lemma feed_NoDup n : (n ≤ 256)%nat → NoDup (Feed.feed n).
Proof.
  intros Hn. apply (NoDup_fmap_1 TransactionId). unfold Feed.feed.
  rewrite <- list_fmap_compose. apply NoDup_fmap_2_strong; [|apply NoDup_seq].
  intros x y Hx Hy Heq. apply elem_of_seq in Hx, Hy. simpl in Heq.
  injection Heq as Heq.
  rewrite <- (nat_ascii_embedding x), <- (nat_ascii_embedding y) by lia.
  by rewrite Heq.
Qed.

Lemma pagination_complete_witness :
  ∃ transactions log,
    AllTransactions unit (pagedServer (Feed.feed 5)) 5 Feed.smallRequest tt
    = (Some (Ok (transactions, None)), tt, log)
    ∧ Z.of_nat (length log) = Z.max 1 ((Z.of_nat (length (Feed.feed 5)) + Z.of_nat 2 - 1) / Z.of_nat 2)
    ∧ length transactions = length (Feed.feed 5)
    ∧ transactions = concat (omap pageOf log)
    ∧ NoDup transactions
    ∧ (length (Feed.feed 5) = 0%nat → transactions = [] ∧ length log = 1%nat).
Proof.
  apply (pagination_complete (Feed.feed 5) 2 5 Feed.smallRequest
           {| AccountIds := None; Count := Some 2; Offset := Some 0 |});
    try reflexivity.
  - lia.
  - vm_compute. discriminate.
  - apply feed_NoDup. lia.
  - vm_compute. lia.
Defined.

(** C6.  Whatever the server does, an error answer is the last exchange of
    the run (no request follows it) and the fetcher returns that error. *)
Theorem first_error_propagates (St : Type)
    (Execute : TransactionsGetRequest → St → (TransactionsGetResponse + error) * St)
    fuel req st out st' log i rq err :
  AllTransactions St Execute fuel req st = (out, st', log) →
  log !! i = Some (rq, inr err) →
  S i = length log ∧ ∃ transactions, out = Some (Ok (transactions, Some err)).
Proof. intros Hrun Hi. by apply (AllTransactions_errors St Execute _ _ _ _ _ _ Hrun i rq). Qed.

Example failing_second_page :
  AllTransactions nat (failingServer (Feed.feed 5) 1 Feed.rateLimit) 5 Feed.smallRequest 0%nat
  = (Some (Ok (take 2 (Feed.feed 5), Some Feed.rateLimit)), 2%nat,
     [(Feed.smallRequest, inl {| Transactions := take 2 (Feed.feed 5); TotalTransactions := 5 |});
      (withOptions Feed.smallRequest {| AccountIds := None; Count := Some 2; Offset := Some 2 |},
       inr Feed.rateLimit)]).
Proof. vm_compute. reflexivity. Qed.

Lemma first_error_propagates_witness :
  2%nat = length [(Feed.smallRequest,
                   inl {| Transactions := take 2 (Feed.feed 5); TotalTransactions := 5 |});
                  (withOptions Feed.smallRequest
                     {| AccountIds := None; Count := Some 2; Offset := Some 2 |},
                   @inr TransactionsGetResponse error Feed.rateLimit)]
  ∧ ∃ transactions,
      Some (Ok (take 2 (Feed.feed 5), Some Feed.rateLimit))
      = Some (Ok (transactions, Some Feed.rateLimit)).
Proof.
  exact (first_error_propagates nat (failingServer (Feed.feed 5) 1 Feed.rateLimit)
           5 Feed.smallRequest 0%nat _ _ _ 1%nat _ _ failing_second_page eq_refl).
Defined.

(** C10 (as amended).  When the first page comes short of the reported
    total, the offset step reads [*req.Options.Offset] and
    [*req.Options.Count]: with a nil pointer there the fetcher panics before
    a second request, with both set it issues the second request at their
    sum.  The CLI call sites set only the account ids on the options that
    [plaid.NewTransactionsGetRequestOptions()] returns, so their [Offset]
    and [Count] are the constructor's: the multi-page branch crashes for
    them exactly when the constructor leaves one of the two nil. *)
Theorem offset_step_reads_offset_and_count :
  (∀ (St : Type) (Execute : TransactionsGetRequest → St → (TransactionsGetResponse + error) * St)
     fuel req st res st1,
     Execute req st = (inl res, st1) →
     Z.of_nat (length (Transactions res)) < TotalTransactions res →
     (match Options req with
      | Some o => Offset o = None ∨ Count o = None
      | None => True
      end →
      AllTransactions St Execute (S fuel) req st
      = (Some (Panic "nil pointer dereference"), st1, [(req, inl res)]))
     ∧
     (∀ o offset count,
        Options req = Some o → Offset o = Some offset → Count o = Some count →
        ∃ answer,
          (AllTransactions St Execute (S fuel) req st).2 !! 1%nat
          = Some (withOptions req (SetOffset o (wrap32 (offset + count))), answer)))
  ∧
  (∀ newOptions accountID start end_ token,
     ∃ o, Options (cliRequest newOptions accountID start end_ token) = Some o
          ∧ Offset o = Offset newOptions ∧ Count o = Count newOptions).
Proof.
  split.
  - intros St Execute fuel req st res st1 Hex Hlt. split.
    + intros Hnil. by apply AllTransactions_nil_options.
    + intros o offset count Ho Hoff Hcnt.
      by apply (AllTransactions_second_request St Execute fuel req st res st1 o).
  - intros newOptions accountID start end_ token. eexists. split_and!; reflexivity.
Qed.

(** The claim as stated fails: the request the CLI builds from the
    constructor's defaults (count 100, offset 0) fetches 250 records in
    three requests and returns them all. *)
Lemma cli_multi_page_fetch_returns :
  ∃ log, AllTransactions unit (pagedServer (Feed.feed 250)) 5
           (cliRequest NewTransactionsGetRequestOptions "" "2024-05-24" "2026-10-31"
              "access-token") tt
         = (Some (Ok (Feed.feed 250, None)), tt, log)
         ∧ length log = 3%nat.
Proof. exact fetch_250_in_pages_of_100. Qed.

(** With a constructor that leaves the pointers nil the same fetch panics
    after the first page. *)
Lemma offset_step_reads_offset_and_count_witness :
  AllTransactions unit (pagedServer (Feed.feed 250)) 5 Feed.bareRequest tt
  = (Some (Panic "nil pointer dereference"), tt,
     [(Feed.bareRequest,
       inl {| Transactions := page (Feed.feed 250) Feed.bareRequest;
              TotalTransactions := Z.of_nat (length (Feed.feed 250)) |})]).
Proof.
  apply (proj1 (proj1 offset_step_reads_offset_and_count unit (pagedServer (Feed.feed 250))
                      4%nat Feed.bareRequest tt _ tt eq_refl ltac:(vm_compute; reflexivity))).
  left. reflexivity.
Defined.

(* ===================================================================== *)
(** ** The wrapper's and the handlers' claims *)
(* ===================================================================== *)

Import Retry.

(** C7.  The auth-retry wrapper, by the error the first run of the action
    returns.  No error, an error that is not a Plaid API error, and a Plaid
    error with a code other than ITEM_LOGIN_REQUIRED: the action is run
    once, nothing is relinked and the result is returned unchanged.  A
    Plaid error with the code ITEM_LOGIN_REQUIRED: the wrapper relinks
    once, returns the relink error when that fails, and when it succeeds
    runs the action a second and last time and returns that result,
    whatever it is.  In every case the action runs at most twice and at
    most one relink is made. *)
Theorem relink_retry_once (W : Type) (Relink : string → string → W → option error * W)
    (port : string) (item : idAndAlias) (action : W → option error * W) (w : W) :
  (∀ w1,
     action w = (None, w1) →
     WithRelinkOnAuthError W Relink port item action w = (None, w1, [Ran None]))
  ∧
  (∀ message w1,
     action w = (Some (OtherError message), w1) →
     WithRelinkOnAuthError W Relink port item action w
     = (Some (OtherError message), w1, [Ran (Some (OtherError message))]))
  ∧
  (∀ code message w1,
     action w = (Some (PlaidError code message), w1) →
     code ≠ "ITEM_LOGIN_REQUIRED"%string →
     WithRelinkOnAuthError W Relink port item action w
     = (Some (PlaidError code message), w1, [Ran (Some (PlaidError code message))]))
  ∧
  (∀ message w1 e w2,
     action w = (Some (PlaidError "ITEM_LOGIN_REQUIRED" message), w1) →
     Relink (id item) port w1 = (Some e, w2) →
     WithRelinkOnAuthError W Relink port item action w
     = (Some e, w2,
        [Ran (Some (PlaidError "ITEM_LOGIN_REQUIRED" message));
         Relinked (id item) port (Some e)]))
  ∧
  (∀ message w1 w2 err2 w3,
     action w = (Some (PlaidError "ITEM_LOGIN_REQUIRED" message), w1) →
     Relink (id item) port w1 = (None, w2) →
     action w2 = (err2, w3) →
     WithRelinkOnAuthError W Relink port item action w
     = (err2, w3,
        [Ran (Some (PlaidError "ITEM_LOGIN_REQUIRED" message));
         Relinked (id item) port None; Ran err2]))
  ∧
  (length (filter isRan (WithRelinkOnAuthError W Relink port item action w).2) ≤ 2
   ∧ length (filter isRelinked (WithRelinkOnAuthError W Relink port item action w).2) ≤ 1)%nat.
Proof.
  unfold WithRelinkOnAuthError. split_and!.
  - intros w1 ->. reflexivity.
  - intros message w1 ->. reflexivity.
  - intros code message w1 -> Hcode. cbn [errorCode]. by rewrite bool_decide_eq_false_2.
  - intros message w1 e w2 -> Hre. cbn [errorCode].
    rewrite bool_decide_eq_true_2 by done. by rewrite Hre.
  - intros message w1 w2 err2 w3 -> Hre Hact. cbn [errorCode].
    rewrite bool_decide_eq_true_2 by done. by rewrite Hre, Hact.
  - destruct (action w) as [err w1]. destruct (bool_decide _); [|simpl; lia].
    destruct (Relink _ _ w1) as [[e|] w2]; [simpl; lia|].
    destruct (action w2) as [err2 w3]. simpl. lia.
  - destruct (action w) as [err w1]. destruct (bool_decide _); [|simpl; lia].
    destruct (Relink _ _ w1) as [[e|] w2]; [simpl; lia|].
    destruct (action w2) as [err2 w3]. simpl. lia.
Qed.

(** The wrapper on six actions.  One that succeeds, one that fails with an
    error that is no Plaid error and one that fails with another Plaid
    code: run once, no relink, although the relink at hand would succeed.
    One whose login expired and whose relink fails: the relink error.  The
    two scenarios of the specification: an action that fails once succeeds
    after one relink; an action that always fails returns its second
    failure. *)
Lemma relink_retry_once_witness :
  WithRelinkOnAuthError nat relinkOk "9090" {| id := "item-1"; alias := "bank" |}
    (expiredFor 0) 0%nat
  = (None, 1%nat, [Ran None])
  ∧
  WithRelinkOnAuthError nat relinkOk "9090" {| id := "item-1"; alias := "bank" |}
    (failsWith (OtherError "connection refused")) 0%nat
  = (Some (OtherError "connection refused"), 1%nat,
     [Ran (Some (OtherError "connection refused"))])
  ∧
  WithRelinkOnAuthError nat relinkOk "9090" {| id := "item-1"; alias := "bank" |}
    (failsWith (PlaidError "RATE_LIMIT_EXCEEDED" "slow down")) 0%nat
  = (Some (PlaidError "RATE_LIMIT_EXCEEDED" "slow down"), 1%nat,
     [Ran (Some (PlaidError "RATE_LIMIT_EXCEEDED" "slow down"))])
  ∧
  WithRelinkOnAuthError nat relinkFails "9090" {| id := "item-1"; alias := "bank" |}
    (expiredFor 1) 0%nat
  = (Some (OtherError "Invalid HTTP method"), 1%nat,
     [Ran (Some loginRequired);
      Relinked "item-1" "9090" (Some (OtherError "Invalid HTTP method"))])
  ∧
  WithRelinkOnAuthError nat relinkOk "9090" {| id := "item-1"; alias := "bank" |}
    (expiredFor 1) 0%nat
  = (None, 2%nat, [Ran (Some loginRequired); Relinked "item-1" "9090" None; Ran None])
  ∧
  WithRelinkOnAuthError nat relinkOk "9090" {| id := "item-1"; alias := "bank" |}
    (expiredFor 5) 0%nat
  = (Some loginRequired, 2%nat,
     [Ran (Some loginRequired); Relinked "item-1" "9090" None; Ran (Some loginRequired)]).
Proof.
  split_and!.
  - apply (proj1 (relink_retry_once nat relinkOk "9090"
             {| id := "item-1"; alias := "bank" |} (expiredFor 0) 0%nat) 1%nat).
    reflexivity.
  - apply (proj1 (proj2 (relink_retry_once nat relinkOk "9090"
             {| id := "item-1"; alias := "bank" |}
             (failsWith (OtherError "connection refused")) 0%nat))
             "connection refused"%string 1%nat).
    reflexivity.
  - apply (proj1 (proj2 (proj2 (relink_retry_once nat relinkOk "9090"
             {| id := "item-1"; alias := "bank" |}
             (failsWith (PlaidError "RATE_LIMIT_EXCEEDED" "slow down")) 0%nat)))
             "RATE_LIMIT_EXCEEDED"%string "slow down"%string 1%nat);
      [reflexivity|discriminate].
  - apply (proj1 (proj2 (proj2 (proj2 (relink_retry_once nat relinkFails "9090"
             {| id := "item-1"; alias := "bank" |} (expiredFor 1) 0%nat))))
             "the login details have changed"%string 1%nat
             (OtherError "Invalid HTTP method") 1%nat); reflexivity.
  - apply (proj1 (proj2 (proj2 (proj2 (proj2 (relink_retry_once nat relinkOk "9090"
             {| id := "item-1"; alias := "bank" |} (expiredFor 1) 0%nat)))))
             "the login details have changed"%string 1%nat 1%nat None 2%nat); reflexivity.
  - apply (proj1 (proj2 (proj2 (proj2 (proj2 (relink_retry_once nat relinkOk "9090"
             {| id := "item-1"; alias := "bank" |} (expiredFor 5) 0%nat)))))
             "the login details have changed"%string 1%nat 1%nat
             (Some loginRequired) 2%nat); reflexivity.
Defined.

Example relink_failure_is_returned :
  WithRelinkOnAuthError nat relinkFails "9090" {| id := "item-1"; alias := "bank" |}
    (expiredFor 1) 0%nat
  = (Some (OtherError "Invalid HTTP method"), 1%nat,
     [Ran (Some loginRequired);
      Relinked "item-1" "9090" (Some (OtherError "Invalid HTTP method"))]).
Proof. reflexivity. Qed.

Import Linker.

Lemma Get_absent (form : gmap string (list string)) key :
  form !! key = None → Get form key = ""%string.
Proof. unfold Get. by intros ->. Qed.

(** C8.  A POST to /link with a non-empty [public_token] sends it on the
    result channel, with the field absent or empty it sends an error on the
    error channel; a POST to /relink with the [error] field absent or empty
    signals success on the relink-result channel, with a non-empty [error]
    it sends that error on the error channel. *)
Theorem post_handlers_deliver (linkToken : string) (form : gmap string (list string)) :
  (Get form "public_token" ≠ ""%string →
   handleLink linkToken (post form) = [SendResults (Get form "public_token"); Write "ok"])
  ∧
  (form !! "public_token"%string = None ∨ Get form "public_token" = ""%string →
   handleLink linkToken (post form)
   = [SendErrors (errorsNew "Empty public_token"); Write "ok"])
  ∧
  (form !! "error"%string = None ∨ Get form "error" = ""%string →
   handleRelink linkToken (post form) = [SendRelinkResults true; Write "ok"])
  ∧
  (Get form "error" ≠ ""%string →
   handleRelink linkToken (post form)
   = [SendErrors (errorsNew (Get form "error")); Write "ok"]).
Proof.
  unfold handleLink, handleRelink, post. cbn [Method Form].
  rewrite (bool_decide_eq_false_2 ("POST"%string = "GET"%string)) by discriminate.
  rewrite (bool_decide_eq_true_2 ("POST"%string = "POST"%string)) by reflexivity.
  split_and!.
  - intros Hne. by rewrite bool_decide_eq_true_2.
  - intros [Habs|Hempty]; [apply Get_absent in Habs as Hempty|];
      rewrite bool_decide_eq_false_2; try done; by intros H; apply H.
  - intros [Habs|Hempty]; [apply Get_absent in Habs as Hempty|];
      rewrite bool_decide_eq_false_2; try done; by intros H; apply H.
  - intros Hne. by rewrite bool_decide_eq_true_2.
Qed.

Lemma post_handlers_deliver_witness :
  handleLink "link-token" (post {[ "public_token"%string := ["public-sandbox-1"%string] ]})
  = [SendResults "public-sandbox-1"; Write "ok"]
  ∧ handleLink "link-token" (post ∅)
    = [SendErrors (errorsNew "Empty public_token"); Write "ok"]
  ∧ handleRelink "link-token" (post {[ "error"%string := [""%string] ]})
    = [SendRelinkResults true; Write "ok"]
  ∧ handleRelink "link-token" (post {[ "error"%string := ["INVALID_CREDENTIALS"%string] ]})
    = [SendErrors (errorsNew "INVALID_CREDENTIALS"); Write "ok"].
Proof.
  split_and!.
  - rewrite (proj1 (post_handlers_deliver "link-token"
                      {[ "public_token"%string := ["public-sandbox-1"%string] ]}))
      by (vm_compute; discriminate).
    vm_compute. reflexivity.
  - apply (proj1 (proj2 (post_handlers_deliver "link-token" ∅))). left. reflexivity.
  - apply (proj1 (proj2 (proj2 (post_handlers_deliver "link-token"
                                   {[ "error"%string := [""%string] ]})))).
    right. vm_compute. reflexivity.
  - rewrite (proj2 (proj2 (proj2 (post_handlers_deliver "link-token"
                                     {[ "error"%string := ["INVALID_CREDENTIALS"%string] ]}))))
      by (vm_compute; discriminate).
    vm_compute. reflexivity.
Defined.

(* ===================================================================== *)
(** ** More about the engine: arranging, plan sets, first sync *)
(* ===================================================================== *)

Module EngineMore.
Import Airtable AirtableFacts EngineProps.

(** The record stored for an account and a Plaid id. *)
Definition stored (ret : gmap string (gmap string TransactionRecord))
    (accountID plaidID : string) : option TransactionRecord :=
  match ret !! accountID with
  | Some byID => byID !! plaidID
  | None => None
  end.

Definition hasKey (accountID plaidID : string) (t : TransactionRecord) : Prop :=
  AccountID (Fields t) = accountID ∧ PlaidID (Fields t) = plaidID.

#[local] Instance hasKey_dec accountID plaidID t : Decision (hasKey accountID plaidID t).
Proof. unfold hasKey. apply _. Defined.

Lemma byAccountIDbyTransactionID_snoc ts t :
  byAccountIDbyTransactionID (ts ++ [t])
  = <[AccountID (Fields t) :=
        <[PlaidID (Fields t) := t]>
          (default ∅ (byAccountIDbyTransactionID ts !! AccountID (Fields t)))]>
      (byAccountIDbyTransactionID ts).
Proof. unfold byAccountIDbyTransactionID. by rewrite fold_left_app. Qed.

Lemma omap_cons {A B} (f : A → option B) (x : A) (l : list A) :
  omap f (x :: l) = match f x with Some y => y :: omap f l | None => omap f l end.
Proof. reflexivity. Qed.

Lemma stored_step ret t accountID plaidID :
  stored (<[AccountID (Fields t) :=
             <[PlaidID (Fields t) := t]> (default ∅ (ret !! AccountID (Fields t)))]> ret)
         accountID plaidID
  = if decide (hasKey accountID plaidID t) then Some t else stored ret accountID plaidID.
Proof.
  unfold stored, hasKey.
  destruct (decide (AccountID (Fields t) = accountID)) as [<-|Hacct].
  - rewrite lookup_insert_eq.
    destruct (decide (PlaidID (Fields t) = plaidID)) as [<-|Hid].
    + rewrite lookup_insert_eq. by rewrite decide_True.
    + rewrite lookup_insert_ne by done. rewrite decide_False by naive_solver.
      destruct (ret !! AccountID (Fields t)); cbn [from_option id]; [done|].
      by rewrite lookup_empty.
  - rewrite lookup_insert_ne by done. by rewrite decide_False by naive_solver.
Qed.

(** X1.  [byAccountIDbyTransactionID] keeps, for every account and Plaid id, the
    last record of the input with these two ids, and nothing else. *)
Theorem arranged_lookup_is_last (ts : list TransactionRecord) accountID plaidID :
  stored (byAccountIDbyTransactionID ts) accountID plaidID
  = last (filter (hasKey accountID plaidID) ts).
Proof.
  induction ts as [|t ts IH] using rev_ind.
  - unfold stored, byAccountIDbyTransactionID. cbn [fold_left]. by rewrite lookup_empty.
  - rewrite byAccountIDbyTransactionID_snoc, stored_step, filter_app, IH.
    rewrite filter_cons, filter_nil.
    destruct (decide (hasKey accountID plaidID t)).
    + by rewrite last_snoc.
    + by rewrite app_nil_r.
Qed.

(** The keys of the records a comprehension over a map's entries picks are
    distinct when each picked record carries its entry's key. *)
Lemma omap_keys_NoDup (m : gmap string TransactionRecord)
    (pick : string * TransactionRecord → option TransactionRecord) :
  (∀ kv r, kv ∈ map_to_list m → pick kv = Some r → PlaidID (Fields r) = kv.1) →
  NoDup ((λ r, PlaidID (Fields r)) <$> omap pick (map_to_list m)).
Proof.
  intros Hkey.
  cut (((λ r, PlaidID (Fields r)) <$> omap pick (map_to_list m))
         `sublist_of` (map_to_list m).*1).
  { intros Hsub. exact (sublist_NoDup _ _ (NoDup_fst_map_to_list m) Hsub). }
  revert Hkey. generalize (map_to_list m). intros l Hkey.
  induction l as [|kv l IH]; [constructor|].
  rewrite omap_cons, fmap_cons.
  destruct (pick kv) as [r|] eqn:Hp.
  - rewrite fmap_cons, (Hkey kv r (list_elem_of_here _ _) Hp).
    apply sublist_skip. apply IH. intros kv' r' Hin. apply Hkey. by apply list_elem_of_further.
  - apply sublist_cons. apply IH. intros kv' r' Hin. apply Hkey. by apply list_elem_of_further.
Qed.

(** X2.  Within each set of a plan no key occurs twice: no row is created,
    updated or deleted more than once. *)
Theorem plan_sets_have_distinct_keys now
    (plaidTs airtableTs : gmap string TransactionRecord) u :
  keyed plaidTs → keyed airtableTs →
  updateAccount now plaidTs airtableTs = Ok u →
  NoDup ((λ r, PlaidID (Fields r)) <$> ToCreate u)
  ∧ NoDup ((λ r, PlaidID (Fields r)) <$> ToUpdate u)
  ∧ NoDup ((λ r, PlaidID (Fields r)) <$> ToDelete u).
Proof.
  intros Kp Ka Hok. destruct (updateAccount_Ok _ _ _ _ Hok) as [_ ->]. cbn [ToCreate ToUpdate ToDelete].
  split_and!; apply omap_keys_NoDup; intros [id t] r Hin Hpick;
    apply elem_of_map_to_list in Hin; cbn [fst snd] in *.
  - unfold createOf in Hpick. cbn [fst snd] in Hpick.
    destruct (airtableTs !! id); [done|]. injection Hpick as <-. exact (Kp _ _ Hin).
  - unfold updateOf in Hpick. cbn [fst snd] in Hpick.
    destruct (airtableTs !! id) as [e|]; [|done].
    destruct (changed e t); [|done]. injection Hpick as <-. exact (Kp _ _ Hin).
  - unfold deleteOf in Hpick. cbn [fst snd] in Hpick.
    destruct (bool_decide _); [done|].
    destruct (GoTime.ParseDate _) as [tt|]; [|done].
    destruct (GoTime.After tt _); [|done]. injection Hpick as <-. exact (Ka _ _ Hin).
Qed.

Lemma plan_sets_have_distinct_keys_witness :
  NoDup ((λ r, PlaidID (Fields r)) <$> ToCreate Sample.plan)
  ∧ NoDup ((λ r, PlaidID (Fields r)) <$> ToUpdate Sample.plan)
  ∧ NoDup ((λ r, PlaidID (Fields r)) <$> ToDelete Sample.plan).
Proof.
  exact (plan_sets_have_distinct_keys Sample.now Sample.plaidTs Sample.airtableTs Sample.plan
           (arranged_keyed _ _ (byAccountIDbyTransactionID_arranged Sample.source))
           (arranged_keyed _ _ (byAccountIDbyTransactionID_arranged Sample.mirror))
           sample_updateAccount).
Defined.

(** X3.  A first sync (nothing stored for the account yet) never panics: every
    source record is created, nothing is updated or deleted. *)
Theorem first_sync_creates_everything now (plaidTs : gmap string TransactionRecord) :
  updateAccount now plaidTs ∅
  = Ok {| ToCreate := (map_to_list plaidTs).*2; ToDelete := []; ToUpdate := [] |}.
Proof.
  rewrite updateAccount_unfold, map_to_list_empty. cbn [rangeM]. f_equal.
  assert (Hgen : ∀ l : list (string * TransactionRecord),
             omap (createOf ∅) l = l.*2 ∧ omap (updateOf ∅) l = []).
  { induction l as [|[id t] l [IH1 IH2]]; [done|].
    rewrite !omap_cons, fmap_cons, IH1, IH2.
    unfold createOf, updateOf. cbn [fst snd]. by rewrite lookup_empty. }
  destruct (Hgen (map_to_list plaidTs)) as [-> ->]. reflexivity.
Qed.

End EngineMore.

(* ===================================================================== *)
(** ** What the command line's helpers do *)
(* ===================================================================== *)

Module CliFacts.
Import Cli.

Lemma sliceToMap_lookup_gen (slice : list string) (m : gmap string bool) (k : string) :
  fold_left (λ set s, <[s := true]> set) slice m !! k
  = if decide (k ∈ slice) then Some true else m !! k.
Proof.
  revert m. induction slice as [|s slice IH]; intros m; cbn [fold_left].
  - rewrite decide_False; [done|]. apply not_elem_of_nil.
  - rewrite IH. destruct (decide (k ∈ slice)) as [Hin|Hout].
    + rewrite decide_True; [done|]. by apply list_elem_of_further.
    + destruct (decide (s = k)) as [->|Hne].
      * rewrite lookup_insert_eq, decide_True; [done|]. apply list_elem_of_here.
      * rewrite lookup_insert_ne by done. rewrite decide_False; [done|].
        intros [?|?]%elem_of_cons; congruence.
Qed.

Lemma index_sliceToMap (slice : list string) (k : string) :
  index (sliceToMap slice) k = bool_decide (k ∈ slice).
Proof.
  unfold index, sliceToMap. rewrite sliceToMap_lookup_gen, lookup_empty.
  destruct (decide (k ∈ slice)).
  - by rewrite bool_decide_eq_true_2.
  - by rewrite bool_decide_eq_false_2.
Qed.

(** X13.  [sliceToMap] builds a set: a string of the slice maps to [true], any
    other string is absent; [false] is never stored. *)
Theorem sliceToMap_is_set (slice : list string) (k : string) :
  sliceToMap slice !! k = if decide (k ∈ slice) then Some true else None.
Proof. unfold sliceToMap. by rewrite sliceToMap_lookup_gen, lookup_empty. Qed.

(** X14.  [AreValidCountries] accepts a list exactly when every code in it is one
    of US, CA, GB, IE, ES, FR, NL, spelled in upper case; the empty list is
    accepted. *)
Theorem AreValidCountries_iff (countries : list string) :
  AreValidCountries countries = true
  ↔ Forall (λ c, c ∈ plaidSupportedCountries) countries.
Proof.
  unfold AreValidCountries. induction countries as [|c rest IH]; cbn [allSupported].
  - split; [constructor|done].
  - rewrite index_sliceToMap, Forall_cons.
    destruct (decide (c ∈ plaidSupportedCountries)) as [Hin|Hout].
    + rewrite bool_decide_eq_true_2 by done. cbn [negb]. rewrite IH. naive_solver.
    + rewrite bool_decide_eq_false_2 by done. cbn [negb]. naive_solver.
Qed.

Example AreValidCountries_examples :
  AreValidCountries [] = true ∧ AreValidCountries ["US"; "NL"] = true
  ∧ AreValidCountries ["US"; "DE"] = false ∧ AreValidCountries ["us"] = false.
Proof. vm_compute. done. Qed.

(** X15.  [IsValidLanguageCode] accepts exactly en, fr, es and nl. *)
Theorem IsValidLanguageCode_iff (lang : string) :
  IsValidLanguageCode lang = true ↔ lang ∈ plaidSupportedLanguages.
Proof. unfold IsValidLanguageCode. rewrite index_sliceToMap. apply bool_decide_eq_true. Qed.

Section Save.
Variable W : Type.
Variable Save : Data → W → option Plaid.error * W.

(** [SetAlias] for an item without an access token returns an error and
    changes nothing: the maps are as before and nothing is saved. *)
Theorem SetAlias_unknown_item data itemID alias w :
  Tokens data !! itemID = None →
  ∃ err, SetAlias W Save data itemID alias w = (Some err, data, w).
Proof. intros Hno. unfold SetAlias. rewrite Hno. eauto. Qed.

Lemma SetAlias_known_item data itemID alias w err data' w' :
  is_Some (Tokens data !! itemID) →
  SetAlias W Save data itemID alias w = (err, data', w') →
  data' = {| Tokens := Tokens data;
             Aliases := <[alias := itemID]> (Aliases data);
             BackAliases := <[itemID := alias]> (BackAliases data) |}
  ∧ (err, w') = Save data' w.
Proof.
  intros [token Htok] Hrun. unfold SetAlias in Hrun. rewrite Htok in Hrun.
  destruct (Save _ w) as [e w1] eqn:Hsave. injection Hrun as <- <- <-.
  by rewrite Hsave.
Qed.

(** X16.  [SetAlias] for an item with a token: afterwards the alias resolves to
    the item and the item to the alias, whether or not the save succeeded;
    the tokens and every other alias and back-alias are untouched. *)
Theorem SetAlias_round_trip data itemID alias w err data' w' :
  is_Some (Tokens data !! itemID) →
  SetAlias W Save data itemID alias w = (err, data', w') →
  Aliases data' !! alias = Some itemID
  ∧ BackAliases data' !! itemID = Some alias
  ∧ Tokens data' = Tokens data
  ∧ (∀ a, a ≠ alias → Aliases data' !! a = Aliases data !! a)
  ∧ (∀ i, i ≠ itemID → BackAliases data' !! i = BackAliases data !! i)
  ∧ (err, w') = Save data' w.
Proof.
  intros Htok Hrun. destruct (SetAlias_known_item _ _ _ _ _ _ _ Htok Hrun) as [Hd Hsave].
  split_and!; [| | | | |done]; rewrite Hd; cbn [Aliases BackAliases Tokens].
  - apply lookup_insert_eq.
  - apply lookup_insert_eq.
  - done.
  - intros a Ha. by rewrite lookup_insert_ne.
  - intros i Hi. by rewrite lookup_insert_ne.
Qed.

(** X17.  Giving an item a second alias does not remove the first: both aliases
    resolve to the item, while the item resolves to the second alias only. *)
Theorem SetAlias_keeps_old_alias data itemID alias1 alias2 w err1 data1 w1 err2 data2 w2 :
  is_Some (Tokens data !! itemID) → alias1 ≠ alias2 →
  SetAlias W Save data itemID alias1 w = (err1, data1, w1) →
  SetAlias W Save data1 itemID alias2 w1 = (err2, data2, w2) →
  Aliases data2 !! alias1 = Some itemID
  ∧ Aliases data2 !! alias2 = Some itemID
  ∧ BackAliases data2 !! itemID = Some alias2.
Proof.
  intros Htok Hne Hrun1 Hrun2.
  destruct (SetAlias_known_item _ _ _ _ _ _ _ Htok Hrun1) as [Hd1 _].
  assert (Htok1 : is_Some (Tokens data1 !! itemID)) by (by rewrite Hd1).
  destruct (SetAlias_known_item _ _ _ _ _ _ _ Htok1 Hrun2) as [Hd2 _].
  rewrite Hd2, Hd1. cbn [Aliases BackAliases Tokens]. split_and!.
  - rewrite lookup_insert_ne by done. apply lookup_insert_eq.
  - apply lookup_insert_eq.
  - apply lookup_insert_eq.
Qed.

End Save.

(** A data directory with one linked item and no alias yet; saving keeps
    the last data written and succeeds, or fails on a read-only disk. *)
Definition linked : Data :=
  {| Tokens := {[ "item-1"%string := "access-token-1"%string ]};
     Aliases := ∅; BackAliases := ∅ |}.

Definition saveOk (d : Data) (disk : option Data) : option Plaid.error * option Data :=
  (None, Some d).
Definition saveFails (d : Data) (disk : option Data) : option Plaid.error * option Data :=
  (Some (Plaid.OtherError "read-only file system"), disk).

Definition linkedAs (a : string) : Data :=
  {| Tokens := Tokens linked;
     Aliases := <[a := "item-1"%string]> ∅;
     BackAliases := <[ "item-1"%string := a ]> ∅ |}.

Example SetAlias_linked :
  SetAlias (option Data) saveFails linked "item-1" "bank" None
  = (Some (Plaid.OtherError "read-only file system"), linkedAs "bank", None).
Proof. vm_compute. reflexivity. Qed.

Lemma linked_token : is_Some (Tokens linked !! "item-1"%string).
Proof. exists "access-token-1"%string. vm_compute. reflexivity. Qed.

Lemma SetAlias_unknown_item_witness :
  ∃ err, SetAlias (option Data) saveOk linked "item-2" "bank" None = (Some err, linked, None).
Proof.
  apply (SetAlias_unknown_item (option Data) saveOk linked "item-2" "bank" None).
  vm_compute. reflexivity.
Defined.

Lemma SetAlias_round_trip_witness :
  Aliases (linkedAs "bank") !! "bank"%string = Some "item-1"%string
  ∧ BackAliases (linkedAs "bank") !! "item-1"%string = Some "bank"%string
  ∧ Tokens (linkedAs "bank") = Tokens linked
  ∧ (∀ a, a ≠ "bank"%string → Aliases (linkedAs "bank") !! a = Aliases linked !! a)
  ∧ (∀ i, i ≠ "item-1"%string → BackAliases (linkedAs "bank") !! i = BackAliases linked !! i)
  ∧ (Some (Plaid.OtherError "read-only file system"), None)
    = saveFails (linkedAs "bank") None.
Proof.
  exact (SetAlias_round_trip (option Data) saveFails linked "item-1" "bank" None
           _ _ _ linked_token SetAlias_linked).
Defined.

Example SetAlias_linked_twice :
  SetAlias (option Data) saveOk linked "item-1" "bank" None
  = (None, linkedAs "bank", Some (linkedAs "bank"))
  ∧ ∃ data2,
      SetAlias (option Data) saveOk (linkedAs "bank") "item-1" "savings"
        (Some (linkedAs "bank"))
      = (None, data2, Some data2).
Proof. split; [vm_compute; reflexivity|]. eexists. vm_compute. reflexivity. Qed.

Lemma SetAlias_keeps_old_alias_witness :
  ∃ data2,
    Aliases data2 !! "bank"%string = Some "item-1"%string
    ∧ Aliases data2 !! "savings"%string = Some "item-1"%string
    ∧ BackAliases data2 !! "item-1"%string = Some "savings"%string.
Proof.
  destruct SetAlias_linked_twice as [H1 [data2 H2]]. exists data2.
  apply (SetAlias_keeps_old_alias (option Data) saveOk linked "item-1" "bank" "savings"
           None None (linkedAs "bank") (Some (linkedAs "bank")) None data2 (Some data2)
           linked_token); [discriminate|exact H1|exact H2].
Defined.

(** X18.  The items a command processes.  With ["all"]: every alias whose item is
    not the sandbox item, so an item that was never given an alias is left
    out.  With anything else: the alias of that name, which must exist (an
    unknown name panics), unless its item is the sandbox item. *)
Theorem processed_items (aliases : gmap string string) (itemOrAlias : string) :
  (itemOrAlias ≠ "all"%string → aliases !! itemOrAlias = None →
   selectItems aliases itemOrAlias = Panic "Unknown alias")
  ∧
  (∀ items, selectItems aliases itemOrAlias = Ok items →
     ∀ item, item ∈ processed items
       ↔ aliases !! Retry.alias item = Some (Retry.id item)
         ∧ Retry.id item ≠ sandboxItem
         ∧ (itemOrAlias = "all"%string ∨ Retry.alias item = itemOrAlias)).
Proof.
  unfold selectItems, processed. split.
  - intros Hne Hno. rewrite bool_decide_eq_false_2 by done. by rewrite Hno.
  - intros items Hsel [id alias]. rewrite list_elem_of_filter. cbn [Retry.id Retry.alias].
    destruct (decide (itemOrAlias = "all"%string)) as [Hall|Hne].
    + rewrite bool_decide_eq_true_2 in Hsel by done. injection Hsel as <-.
      rewrite list_elem_of_fmap. split.
      * intros [Hsb ([a i] & Heq & Hin)]. injection Heq as -> ->.
        apply elem_of_map_to_list in Hin. auto.
      * intros (Hlk & Hsb & _). split; [done|]. exists (alias, id).
        split; [done|]. by apply elem_of_map_to_list.
    + rewrite bool_decide_eq_false_2 in Hsel by done.
      destruct (aliases !! itemOrAlias) as [itemID|] eqn:Hlk; [|done].
      injection Hsel as <-. rewrite list_elem_of_singleton. split.
      * intros [Hsb Heq]. injection Heq as -> ->. auto.
      * intros (Hlk' & Hsb & [Hall| ->]); [done|].
        split; [done|]. congruence.
Qed.

(** Two aliases, one of them of the sandbox item. *)
Definition sampleAliases : gmap string string :=
  {[ "bank"%string := "item-1"%string; "sandbox"%string := sandboxItem ]}.

(** A name that is no alias panics; with ["all"] the bank's item is
    processed and the sandbox item is not. *)
Lemma processed_items_witness :
  selectItems sampleAliases "checking" = Panic "Unknown alias"
  ∧ ∃ items,
      selectItems sampleAliases "all" = Ok items
      ∧ {| Retry.id := "item-1"; Retry.alias := "bank" |} ∈ processed items
      ∧ ¬ ({| Retry.id := sandboxItem; Retry.alias := "sandbox" |} ∈ processed items).
Proof.
  split.
  - apply (proj1 (processed_items sampleAliases "checking"));
      [discriminate|vm_compute; reflexivity].
  - exists ((λ kv, {| Retry.id := kv.2; Retry.alias := kv.1 |}) <$> map_to_list sampleAliases).
    assert (Hsel : selectItems sampleAliases "all"
                   = Ok ((λ kv, {| Retry.id := kv.2; Retry.alias := kv.1 |})
                           <$> map_to_list sampleAliases)).
    { unfold selectItems. by rewrite bool_decide_eq_true_2. }
    split; [exact Hsel|]. split.
    + apply (proj2 (processed_items sampleAliases "all") _ Hsel).
      split_and!; [vm_compute; reflexivity|discriminate|by left].
    + intros Hin.
      apply (proj2 (processed_items sampleAliases "all") _ Hsel) in Hin as (_ & Hne & _).
      by apply Hne.
Defined.

End CliFacts.

(* ===================================================================== *)
(** ** More about the fetcher: what it returns, what it asks, when it
       does not stop *)
(* ===================================================================== *)

Module FetcherMore.
Import Plaid Fetcher FetcherFacts.

(** Each request follows from the one before it by the offset step. *)
Definition steps (log : list exchange) : Prop :=
  ∀ i rq1 a1 rq2 a2,
    log !! i = Some (rq1, a1) → log !! S i = Some (rq2, a2) →
    ∃ o offset count,
      Options rq1 = Some o ∧ Offset o = Some offset ∧ Count o = Some count
      ∧ rq2 = withOptions rq1 (SetOffset o (wrap32 (offset + count))).

Lemma omap_pageOf_snoc (log : list exchange) rq ans :
  concat (omap pageOf (log ++ [(rq, ans)]))
  = concat (omap pageOf log) ++ match ans with inl res => Transactions res | inr _ => [] end.
Proof.
  rewrite omap_app, concat_app. f_equal.
  destruct ans; cbn; by rewrite ?app_nil_r.
Qed.

Lemma steps_snoc (log : list exchange) rq a rq' a' o offset count :
  steps (log ++ [(rq, a)]) →
  Options rq = Some o → Offset o = Some offset → Count o = Some count →
  rq' = withOptions rq (SetOffset o (wrap32 (offset + count))) →
  steps ((log ++ [(rq, a)]) ++ [(rq', a')]).
Proof.
  intros Hsteps Ho Hoff Hcnt -> i rq1 a1 rq2 a2 H1 H2.
  assert (Hlen : length (log ++ [(rq, a)]) = S (length log)).
  { rewrite length_app. simpl. lia. }
  destruct (decide (S i < S (length log))%nat) as [Hlt|Hge].
  - assert (Hi1 : (i < length (log ++ [(rq, a)]))%nat) by (rewrite Hlen; lia).
    assert (Hi2 : (S i < length (log ++ [(rq, a)]))%nat) by (rewrite Hlen; lia).
    rewrite (lookup_app_l _ _ _ Hi1) in H1. rewrite (lookup_app_l _ _ _ Hi2) in H2.
    by apply (Hsteps i rq1 a1 rq2 a2).
  - assert (Hi : i = length log).
    { apply lookup_lt_Some in H2. rewrite length_app, Hlen in H2. simpl in H2. lia. }
    subst i.
    assert (Hi1 : (length log < length (log ++ [(rq, a)]))%nat) by (rewrite Hlen; lia).
    rewrite (lookup_app_l _ _ _ Hi1) in H1.
    assert (Hle0 : (length log ≤ length log)%nat) by lia.
    rewrite (lookup_app_r _ _ _ Hle0), Nat.sub_diag in H1. injection H1 as <- <-.
    assert (Hle : (length (log ++ [(rq, a)]) ≤ S (length log))%nat) by (rewrite Hlen; lia).
    rewrite (lookup_app_r _ _ _ Hle), Hlen, Nat.sub_diag in H2. injection H2 as <- <-.
    eauto 10.
Qed.

Lemma steps_singleton (x : exchange) : steps ([] ++ [x]).
Proof. intros i rq1 a1 rq2 a2 H1 H2. destruct i; discriminate. Qed.

Section Server.
Variable St : Type.
Variable Execute : TransactionsGetRequest → St → (TransactionsGetResponse + error) * St.

Lemma pageLoop_pages fuel total req transactions st log out st' log' :
  transactions = concat (omap pageOf log) →
  pageLoop St Execute fuel total req transactions st log = (out, st', log') →
  ∀ txs err, out = Some (Ok (txs, err)) → txs = concat (omap pageOf log').
Proof.
  revert req transactions st log.
  induction fuel as [|fuel IH]; intros req transactions st log Hinv Hrun txs err Hout;
    rewrite pageLoop_unfold in Hrun;
    destruct (Z.of_nat (length transactions) <? total);
    try (injection Hrun as <- <- <-; congruence).
  destruct (Options req) as [o|]; [|injection Hrun as <- <- <-; congruence].
  destruct (Offset o); [|injection Hrun as <- <- <-; congruence].
  destruct (Count o); [|injection Hrun as <- <- <-; congruence].
  cbv zeta in Hrun. destruct (Execute _ st) as [[res|e] st1].
  - eapply IH; [|exact Hrun|exact Hout]. rewrite omap_pageOf_snoc. by rewrite Hinv.
  - injection Hrun as <- <- <-. injection Hout as <- <-.
    rewrite omap_pageOf_snoc, app_nil_r. exact Hinv.
Qed.

(** X9.  Whatever the server answers, the slice [AllTransactions] returns is the
    concatenation of the pages it received, in order, also when it returns
    with an error: the pages before the failure come back with it. *)
Theorem returned_slice_is_pages_received fuel req st txs err st' log :
  AllTransactions St Execute fuel req st = (Some (Ok (txs, err)), st', log) →
  txs = concat (omap pageOf log).
Proof.
  unfold AllTransactions. destruct (Execute req st) as [[res|e] st1]; intros Hrun.
  - eapply pageLoop_pages; [|exact Hrun|reflexivity].
    cbn. by rewrite app_nil_r.
  - by injection Hrun as <- <- <- <-.
Qed.

Lemma pageLoop_steps fuel total req a transactions st log out st' log' :
  steps (log ++ [(req, a)]) →
  pageLoop St Execute fuel total req transactions st (log ++ [(req, a)]) = (out, st', log') →
  steps log'.
Proof.
  revert req a transactions st log.
  induction fuel as [|fuel IH]; intros req a transactions st log Hinv Hrun;
    rewrite pageLoop_unfold in Hrun;
    destruct (Z.of_nat (length transactions) <? total);
    try (by injection Hrun as <- <- <-).
  destruct (Options req) as [o|] eqn:Ho; [|by injection Hrun as <- <- <-].
  destruct (Offset o) as [offset|] eqn:Hoff; [|by injection Hrun as <- <- <-].
  destruct (Count o) as [count|] eqn:Hcnt; [|by injection Hrun as <- <- <-].
  cbv zeta in Hrun. destruct (Execute _ st) as [[res|e] st1].
  - eapply IH; [|exact Hrun]. by eapply steps_snoc.
  - injection Hrun as <- <- <-. by eapply steps_snoc.
Qed.

(** X10.  The first request is the caller's, and every later request repeats the
    one before it with only the offset changed, to the wrapped sum of the
    previous offset and the count: dates, access token, account filter and
    count are the same in every request. *)
Theorem requests_advance_offset_only fuel req st out st' log :
  AllTransactions St Execute fuel req st = (out, st', log) →
  (∃ a, log !! 0%nat = Some (req, a)) ∧ steps log.
Proof.
  unfold AllTransactions. destruct (Execute req st) as [[res|e] st1]; intros Hrun.
  - split.
    + apply pageLoop_extends in Hrun as [ext ->]. eauto.
    + apply (pageLoop_steps _ _ _ _ _ _ [] _ _ _) in Hrun; [done|]. apply steps_singleton.
  - injection Hrun as <- <- <-. split; [eauto|]. apply steps_singleton.
Qed.

(** X11.  A server that answers every request with an empty page and the same
    positive total: the loop makes no progress and has no other exit, so
    with both pointers set the fetcher never returns, one request after
    the other. *)
Theorem empty_pages_never_return fuel req st o offset count total :
  (∀ rq s, ∃ s', Execute rq s = (inl {| Transactions := []; TotalTransactions := total |}, s')) →
  0 < total →
  Options req = Some o → Offset o = Some offset → Count o = Some count →
  ∃ st' log,
    AllTransactions St Execute fuel req st = (None, st', log)
    ∧ length log = S fuel.
Proof.
  intros Hsrv Hpos Ho Hoff Hcnt. unfold AllTransactions.
  destruct (Hsrv req st) as [st1 ->]. cbn [Transactions TotalTransactions app].
  assert (Hgen : ∀ fuel0 rq o' off s lg,
             Options rq = Some o' → Offset o' = Some off → Count o' = Some count →
             ∃ s' lg',
               pageLoop St Execute fuel0 total rq [] s lg = (None, s', lg')
               ∧ length lg' = (length lg + fuel0)%nat).
  { induction fuel0 as [|fuel0 IH]; intros rq o' off s lg Ho' Hoff' Hcnt';
      rewrite pageLoop_unfold;
      change (Z.of_nat (length (@nil Transaction))) with 0;
      rewrite (proj2 (Z.ltb_lt 0 total) Hpos).
    - exists s, lg. split; [done|lia].
    - rewrite Ho', Hoff', Hcnt'. cbv zeta.
      destruct (Hsrv (withOptions rq (SetOffset o' (wrap32 (off + count)))) s) as [s1 ->].
      cbn [Transactions app].
      destruct (IH (withOptions rq (SetOffset o' (wrap32 (off + count))))
                  (SetOffset o' (wrap32 (off + count))) (wrap32 (off + count)) s1
                  (lg ++ [(withOptions rq (SetOffset o' (wrap32 (off + count))),
                           inl {| Transactions := []; TotalTransactions := total |})]))
        as (s' & lg' & Hrun & Hlen); [done|done|done|].
      exists s', lg'. split; [done|]. rewrite Hlen, length_app. simpl. lia. }
  destruct (Hgen fuel req o offset st1
              [(req, inl {| Transactions := []; TotalTransactions := total |})] Ho Hoff Hcnt)
    as (s' & lg' & Hrun & Hlen).
  exists s', lg'. split; [done|]. rewrite Hlen. simpl. lia.
Qed.

End Server.

(** A request for pages of zero records. *)
Definition zeroCountRequest : TransactionsGetRequest :=
  {| StartDate := "2024-05-24"; EndDate := "2026-10-31";
     Options := Some {| AccountIds := None; Count := Some 0; Offset := Some 0 |};
     AccessToken := "access-token" |}.

(** A server that has nothing to give but reports five records. *)
Definition stuckServer (rq : TransactionsGetRequest) (st : unit)
    : (TransactionsGetResponse + error) * unit :=
  (inl {| Transactions := []; TotalTransactions := 5 |}, st).

Lemma empty_pages_never_return_witness :
  ∃ st' log,
    AllTransactions unit stuckServer 7 zeroCountRequest tt = (None, st', log)
    ∧ length log = 8%nat.
Proof.
  apply (empty_pages_never_return unit stuckServer 7 zeroCountRequest tt
           {| AccountIds := None; Count := Some 0; Offset := Some 0 |} 0 0 5);
    try reflexivity.
  intros rq []. by exists tt.
Defined.

Lemma returned_slice_is_pages_received_witness :
  take 2 (Feed.feed 5)
  = concat (omap pageOf
      [(Feed.smallRequest, inl {| Transactions := take 2 (Feed.feed 5); TotalTransactions := 5 |});
       (withOptions Feed.smallRequest {| AccountIds := None; Count := Some 2; Offset := Some 2 |},
        @inr TransactionsGetResponse error Feed.rateLimit)]).
Proof.
  exact (returned_slice_is_pages_received nat (failingServer (Feed.feed 5) 1 Feed.rateLimit)
           5 Feed.smallRequest 0%nat _ _ _ _ failing_second_page).
Defined.

Lemma requests_advance_offset_only_witness :
  (∃ a, [(Feed.smallRequest,
          @inl TransactionsGetResponse error
            {| Transactions := take 2 (Feed.feed 5); TotalTransactions := 5 |});
         (withOptions Feed.smallRequest {| AccountIds := None; Count := Some 2; Offset := Some 2 |},
          inr Feed.rateLimit)] !! 0%nat = Some (Feed.smallRequest, a))
  ∧ steps [(Feed.smallRequest,
            inl {| Transactions := take 2 (Feed.feed 5); TotalTransactions := 5 |});
           (withOptions Feed.smallRequest {| AccountIds := None; Count := Some 2; Offset := Some 2 |},
            inr Feed.rateLimit)].
Proof.
  exact (requests_advance_offset_only nat (failingServer (Feed.feed 5) 1 Feed.rateLimit)
           5 Feed.smallRequest 0%nat _ _ _ failing_second_page).
Defined.

End FetcherMore.

(* ===================================================================== *)
(** ** More about the handlers and about the older engine *)
(* ===================================================================== *)

Module LinkerMore.
Import Plaid Linker.

(** A send on one of the linker's channels. *)
Definition isSend (e : effect) : bool :=
  match e with
  | SendResults _ | SendRelinkResults _ | SendErrors _ => true
  | _ => false
  end.

(** A GET renders the page with the link token and sends nothing; a method
    other than GET and POST sends the error "Invalid HTTP method" on the
    error channel and writes no body. *)
Theorem other_methods (linkToken : string) (r : Request) :
  (Method r = "GET"%string →
   handleLink linkToken r = [Render "link" linkToken]
   ∧ handleRelink linkToken r = [Render "relink" linkToken])
  ∧
  (Method r ≠ "GET"%string → Method r ≠ "POST"%string →
   handleLink linkToken r = [SendErrors (errorsNew "Invalid HTTP method")]
   ∧ handleRelink linkToken r = [SendErrors (errorsNew "Invalid HTTP method")]).
Proof.
  unfold handleLink, handleRelink. split.
  - intros ->. by rewrite bool_decide_eq_true_2.
  - intros Hg Hp. by rewrite !(bool_decide_eq_false_2 _ Hg), !(bool_decide_eq_false_2 _ Hp).
Qed.

(** X12.  Every request other than a GET makes its handler send exactly once, a
    GET never; the link handler never signals on the relink-result channel
    and the relink handler never on the result channel. *)
Theorem one_send_per_request (linkToken : string) (r : Request) :
  length (filter isSend (handleLink linkToken r))
  = (if bool_decide (Method r = "GET"%string) then 0 else 1)%nat
  ∧ length (filter isSend (handleRelink linkToken r))
    = (if bool_decide (Method r = "GET"%string) then 0 else 1)%nat
  ∧ (∀ ok, SendRelinkResults ok ∉ handleLink linkToken r)
  ∧ (∀ token, SendResults token ∉ handleRelink linkToken r).
Proof.
  unfold handleLink, handleRelink.
  destruct (bool_decide (Method r = "GET"%string));
    [|destruct (bool_decide (Method r = "POST"%string));
      [destruct (bool_decide (Get (Form r) "public_token" ≠ ""%string));
       destruct (bool_decide (Get (Form r) "error" ≠ ""%string))|]].
  all: split_and!; try reflexivity; intros x Hin;
    repeat (apply elem_of_cons in Hin as [Hin|Hin]; [discriminate|]);
    by apply elem_of_nil in Hin.
Qed.

End LinkerMore.

Module V0More.
Import AirtableV0 AirtableV0Facts.

Definition changedPending (existing t : TransactionRecord) : bool :=
  bool_decide (Pending (Fields existing) ≠ Pending (Fields t)).

Definition createOf (airtableTs : gmap string TransactionRecord)
    (kv : string * TransactionRecord) : option TransactionRecord :=
  match airtableTs !! kv.1 with
  | None => Some kv.2
  | Some existing => if changedPending existing kv.2 then Some kv.2 else None
  end.

Definition replaceOf (airtableTs : gmap string TransactionRecord)
    (kv : string * TransactionRecord) : option TransactionRecord :=
  match airtableTs !! kv.1 with
  | None => None
  | Some existing =>
      if changedPending existing kv.2 then Some (setID kv.2 (ID (Record_ existing))) else None
  end.

Definition orphanOf (ids : gset string) (kv : string * TransactionRecord)
    : option TransactionRecord :=
  if bool_decide (kv.1 ∈ ids) then None else Some kv.2.

Lemma sourceLoop_lists airtableTs (l : list (string * TransactionRecord)) ids u :
  fold_left (λ st kv, sourceBody airtableTs kv st) l (ids, u)
  = (list_to_set l.*1 ∪ ids,
     {| ToCreate := ToCreate u ++ omap (createOf airtableTs) l;
        ToDelete := ToDelete u ++ omap (replaceOf airtableTs) l |}).
Proof.
  revert ids u. induction l as [|[id t] l IH]; intros ids u; cbn [fold_left sourceBody].
  - destruct u; cbn. rewrite !app_nil_r. f_equal. set_solver.
  - rewrite !EngineMore.omap_cons. unfold createOf at 1, replaceOf at 1, changedPending.
    cbn [fst snd].
    destruct (airtableTs !! id) as [existing|].
    + destruct (bool_decide (Pending (Fields existing) ≠ Pending (Fields t))).
      * rewrite IH. cbn [ToCreate ToDelete]. rewrite <- !app_assoc. cbn [app fmap list_fmap fst].
        f_equal. set_solver.
      * rewrite IH. cbn [fmap list_fmap fst]. f_equal. set_solver.
    + rewrite IH. cbn [ToCreate ToDelete]. rewrite <- !app_assoc. cbn [app fmap list_fmap fst].
      f_equal. set_solver.
Qed.

Lemma mirrorLoop_list ids (l : list (string * TransactionRecord)) u :
  fold_left (λ u kv, mirrorBody ids kv u) l u
  = {| ToCreate := ToCreate u; ToDelete := ToDelete u ++ omap (orphanOf ids) l |}.
Proof.
  revert u. induction l as [|[id t] l IH]; intros u; cbn [fold_left mirrorBody].
  - destruct u; cbn. by rewrite app_nil_r.
  - rewrite EngineMore.omap_cons. unfold orphanOf at 1. cbn [fst snd].
    destruct (bool_decide (id ∈ ids)); rewrite IH; [done|].
    cbn [ToCreate ToDelete]. by rewrite <- app_assoc.
Qed.

(** X4.  The plan of the older engine, exactly.  ToCreate holds the source
    records whose key the mirror lacks or whose Pending flag differs from
    the mirror's.  ToDelete holds, for every key whose Pending flag
    differs, the source record under the mirror's record id, and every
    mirror record whose key the source lacks.  A key stored with the same
    Pending flag contributes to neither. *)
Theorem older_plan (plaidTs airtableTs : gmap string TransactionRecord) r :
  (r ∈ ToCreate (updateAccount plaidTs airtableTs)
   ↔ ∃ id, plaidTs !! id = Some r
           ∧ (airtableTs !! id = None
              ∨ ∃ existing, airtableTs !! id = Some existing
                            ∧ Pending (Fields existing) ≠ Pending (Fields r)))
  ∧
  (r ∈ ToDelete (updateAccount plaidTs airtableTs)
   ↔ (∃ id t existing, plaidTs !! id = Some t ∧ airtableTs !! id = Some existing
                       ∧ Pending (Fields existing) ≠ Pending (Fields t)
                       ∧ r = setID t (ID (Record_ existing)))
     ∨ (∃ id, airtableTs !! id = Some r ∧ plaidTs !! id = None)).
Proof.
  unfold updateAccount. rewrite sourceLoop_lists, mirrorLoop_list.
  cbn [ToCreate ToDelete emptyUpdate app]. split.
  - rewrite list_elem_of_omap. unfold createOf, changedPending. split.
    + intros [[id t] [Hin Hc]]. cbn [fst snd] in Hc. apply elem_of_map_to_list in Hin.
      exists id. destruct (airtableTs !! id) as [e|] eqn:Ha.
      * destruct (bool_decide _) eqn:Hb; [|done]. injection Hc as <-.
        apply bool_decide_eq_true in Hb. eauto.
      * injection Hc as <-. eauto.
    + intros (id & Hp & Hcase). exists (id, r). cbn [fst snd].
      split; [by apply elem_of_map_to_list|].
      destruct Hcase as [->|(e & -> & Hne)]; [done|]. by rewrite bool_decide_eq_true_2.
  - rewrite elem_of_app, !list_elem_of_omap. unfold replaceOf, orphanOf, changedPending.
    match goal with
    | |- (?A ∨ ?B) ↔ (?A' ∨ ?B') => cut ((A ↔ A') ∧ (B ↔ B')); [tauto|split; split]
    end.
    + intros [[id t] [Hin Hc]]. cbn [fst snd] in Hc. apply elem_of_map_to_list in Hin.
      destruct (airtableTs !! id) as [e|] eqn:Ha; [|done].
      destruct (bool_decide _) eqn:Hb; [|done]. injection Hc as <-.
      apply bool_decide_eq_true in Hb. exists id, t, e. eauto.
    + intros (id & t & e & Hp & Ha & Hne & ->). exists (id, t). cbn [fst snd].
      split; [by apply elem_of_map_to_list|]. by rewrite Ha, bool_decide_eq_true_2.
    + intros [[id t] [Hin Hc]]. cbn [fst snd] in Hc. apply elem_of_map_to_list in Hin.
      destruct (bool_decide _) eqn:Hb; [done|]. injection Hc as <-.
      apply bool_decide_eq_false in Hb. exists id. split; [done|].
      apply eq_None_not_Some. intros [t' Ht']. apply Hb.
      apply elem_of_union. left. apply elem_of_list_to_set, list_elem_of_fmap.
      exists (id, t'). split; [done|]. by apply elem_of_map_to_list.
    + intros (id & Ha & Hp). exists (id, r). cbn [fst snd].
      split; [by apply elem_of_map_to_list|].
      rewrite bool_decide_eq_false_2; [done|].
      rewrite elem_of_union, elem_of_list_to_set, list_elem_of_fmap.
      intros [[[k t'] [-> Hin]]|Hin]; [|set_solver].
      apply elem_of_map_to_list in Hin. cbn [fst] in Hp. congruence.
Qed.

End V0More.

(* ===================================================================== *)
(** ** What [Sync] writes *)
(* ===================================================================== *)

Module SyncFacts.
Import SyncModel.

Definition record (x : write) : Airtable.TransactionRecord := x.1.2.
Definition account (x : write) : string := Airtable.AccountID (Airtable.Fields (record x)).
Definition failure (x : write) : option Plaid.error := x.2.

Definition rank (o : op) : nat :=
  match o with OpDelete => 0 | OpCreate => 1 | OpUpdate => 2 end.

(** Two writes of the same account come in the order delete, create,
    update. *)
Definition inOrder (x y : write) : Prop :=
  account x = account y → (rank x.1.1 ≤ rank y.1.1)%nat.

(** Every write before the last succeeded. *)
Definition clean (log : list write) : Prop := Forall (λ x, failure x = None) log.

(** What a run left: a clean log and no error, or a clean log followed by
    the failed write whose error is returned. *)
Definition stopsAt (res : option Plaid.error) (log : list write) : Prop :=
  match res with
  | None => clean log
  | Some e => ∃ pre o t, log = pre ++ [(o, t, Some e)] ∧ clean pre
  end.

Section Store.
Variable W : Type.
Variable Now : W → GoTime.Time.
Variable Delete Create Update : Airtable.TransactionRecord → W → option Plaid.error * W.

(** An invariant of the log that every appended write keeps is kept by
    [writeAll]. *)
Lemma writeAll_keeps (I : list write → Prop) o call l w log res w' log' :
  writeAll W o call l w log = (res, w', log') →
  I log →
  (∀ lg t e, t ∈ l → I lg → I (lg ++ [(o, t, e)])) →
  I log'.
Proof.
  revert w log. induction l as [|t l IH]; intros w log Hrun Hlog Hstep; cbn [writeAll] in Hrun.
  - by injection Hrun as <- <- <-.
  - destruct (call t w) as [[e|] w1].
    + injection Hrun as <- <- <-. apply Hstep; [apply list_elem_of_here|done].
    + eapply IH; [exact Hrun| |].
      * apply Hstep; [apply list_elem_of_here|done].
      * intros lg t' e Hin. apply Hstep. by apply list_elem_of_further.
Qed.

Lemma writeAll_stops o call l w log res w' log' :
  writeAll W o call l w log = (res, w', log') → clean log → stopsAt res log'.
Proof.
  revert w log. induction l as [|t l IH]; intros w log Hrun Hlog; cbn [writeAll] in Hrun.
  - by injection Hrun as <- <- <-.
  - destruct (call t w) as [[e|] w1].
    + injection Hrun as <- <- <-. cbn. eauto.
    + eapply IH; [exact Hrun|]. apply Forall_app. split; [done|]. by constructor.
Qed.

Definition stopsAtResult (out : result (option Plaid.error)) (log : list write) : Prop :=
  match out with
  | Ok res => stopsAt res log
  | Panic _ => clean log
  end.

Lemma syncLoop_stops accounts airtableArranged w log out w' log' :
  syncLoop W Now Delete Create Update accounts airtableArranged w log = (out, w', log') →
  clean log → stopsAtResult out log'.
Proof.
  revert w log. induction accounts as [|[accountID transactions] rest IH];
    intros w log Hrun Hlog; cbn [syncLoop] in Hrun.
  - by injection Hrun as <- <- <-.
  - destruct (Airtable.updateAccount _ _ _) as [updates|e]; [|by injection Hrun as <- <- <-].
    destruct (writeAll W OpDelete _ _ w log) as [[r1 w1] log1] eqn:H1.
    apply writeAll_stops in H1; [|done].
    destruct r1 as [e1|]; [by injection Hrun as <- <- <-|].
    destruct (writeAll W OpCreate _ _ w1 log1) as [[r2 w2] log2] eqn:H2.
    apply writeAll_stops in H2; [|done].
    destruct r2 as [e2|]; [by injection Hrun as <- <- <-|].
    destruct (writeAll W OpUpdate _ _ w2 log2) as [[r3 w3] log3] eqn:H3.
    apply writeAll_stops in H3; [|done].
    destruct r3 as [e3|]; [by injection Hrun as <- <- <-|].
    by eapply IH.
Qed.

(** X5.  [Sync] stops at the first write that fails: a failed write is the last
    call on the table and its error is what [Sync] returns. *)
Theorem first_failed_write_ends_sync transactions airtableTransactions w out w' log i o t e :
  Sync W Now Delete Create Update transactions airtableTransactions w = (out, w', log) →
  log !! i = Some (o, t, Some e) →
  S i = length log ∧ out = Ok (Some e).
Proof.
  unfold Sync. intros Hrun Hi.
  apply syncLoop_stops in Hrun; [|constructor].
  assert (Hdirty : ¬ clean log).
  { intros Hc. unfold clean in Hc. rewrite Forall_forall in Hc.
    apply list_elem_of_lookup_2 in Hi. by apply Hc in Hi. }
  destruct out as [[e'|]|]; cbn in Hrun; [|done|done].
  destruct Hrun as (pre & o' & t' & -> & Hpre).
  destruct (decide (i < length pre)%nat) as [Hlt|Hge].
  - rewrite (lookup_app_l _ _ _ Hlt) in Hi. exfalso.
    unfold clean in Hpre. rewrite Forall_forall in Hpre.
    apply list_elem_of_lookup_2 in Hi. by apply Hpre in Hi.
  - assert (Hle : (length pre ≤ i)%nat) by lia.
    rewrite (lookup_app_r _ _ _ Hle) in Hi.
    apply list_lookup_singleton_Some in Hi as [Hi Heq]. injection Heq as <- <- <-.
    rewrite length_app. cbn [length]. split; [lia|done].
Qed.

(** The records of an account's plan all belong to that account. *)
Lemma plan_records_account now
    (plaidTs airtableTs : gmap string Airtable.TransactionRecord) accountID updates :
  (∀ id t, plaidTs !! id = Some t → Airtable.AccountID (Airtable.Fields t) = accountID) →
  (∀ id t, airtableTs !! id = Some t → Airtable.AccountID (Airtable.Fields t) = accountID) →
  Airtable.updateAccount now plaidTs airtableTs = Ok updates →
  ∀ r, r ∈ Airtable.ToDelete updates ∨ r ∈ Airtable.ToCreate updates
       ∨ r ∈ Airtable.ToUpdate updates →
       Airtable.AccountID (Airtable.Fields r) = accountID.
Proof.
  intros Hp Ha Hok r [Hr|[Hr|Hr]].
  - apply (AirtableFacts.in_ToDelete _ _ _ _ Hok) in Hr as (id & tt & Hlk & _). eauto.
  - apply (AirtableFacts.in_ToCreate _ _ _ _ Hok) in Hr as (id & Hlk & _). eauto.
  - apply (AirtableFacts.in_ToUpdate _ _ _ _ Hok) in Hr as (id & t & e & Hlk & _ & _ & ->).
    rewrite AirtableFacts.setID_Fields. eauto.
Qed.

(** The accounts ranged over: names without repetition, each holding
    records of that account only. *)
Definition wellArranged (accounts : list (string * gmap string Airtable.TransactionRecord)) : Prop :=
  NoDup accounts.*1
  ∧ ∀ accountID plaidTs id t,
      (accountID, plaidTs) ∈ accounts → plaidTs !! id = Some t →
      Airtable.AccountID (Airtable.Fields t) = accountID.

Lemma wellArranged_tail kv accounts : wellArranged (kv :: accounts) → wellArranged accounts.
Proof.
  intros [Hnd Hrec]. split.
  - by apply NoDup_cons in Hnd as [_ ?].
  - intros a p id t Hin. apply Hrec. by apply list_elem_of_further.
Qed.

(** Loop invariant for the order of the writes: the log is in order and
    touches no account that is still to come. *)
Lemma syncLoop_order accounts airtableArranged w log out w' log' :
  wellArranged accounts →
  AirtableFacts.arranged airtableArranged →
  StronglySorted inOrder log →
  (∀ x, x ∈ log → account x ∉ accounts.*1) →
  syncLoop W Now Delete Create Update accounts airtableArranged w log = (out, w', log') →
  StronglySorted inOrder log'
  ∧ ∀ x, x ∈ log' → x ∈ log ∨ account x ∈ accounts.*1.
Proof.
  revert w log. induction accounts as [|[accountID transactions] rest IH];
    intros w log Hwell Har Hsorted Hfresh Hrun; cbn [syncLoop] in Hrun.
  - injection Hrun as <- <- <-. auto.
  - destruct (Airtable.updateAccount _ _ _) as [updates|e] eqn:Hplan;
      [|injection Hrun as <- <- <-; auto].
    assert (Hacct : ∀ r, r ∈ Airtable.ToDelete updates ∨ r ∈ Airtable.ToCreate updates
                         ∨ r ∈ Airtable.ToUpdate updates →
                         Airtable.AccountID (Airtable.Fields r) = accountID).
    { eapply plan_records_account; [| |exact Hplan].
      - intros id t. apply (proj2 Hwell accountID transactions). apply list_elem_of_here.
      - intros k t Hlk. destruct (airtableArranged !! accountID) as [m|] eqn:Hm;
          cbn [from_option id] in Hlk.
        + by destruct (Har _ _ _ _ Hm Hlk).
        + by rewrite lookup_empty in Hlk. }
    (* the invariant the three loops keep, for the operation reached *)
    pose (I := λ (o : op) (lg : list write),
            StronglySorted inOrder lg
            ∧ (∀ x, x ∈ lg → account x = accountID → (rank x.1.1 ≤ rank o)%nat)
            ∧ (∀ x, x ∈ lg → x ∈ log ∨ account x = accountID)).
    assert (Hstep : ∀ o (l : list Airtable.TransactionRecord),
               (∀ t, t ∈ l → Airtable.AccountID (Airtable.Fields t) = accountID) →
               ∀ lg t e, t ∈ l → I o lg → I o (lg ++ [(o, t, e)])).
    { intros o l Hl lg t e Hin (Hs & Hr & Hs'). split_and!.
      - apply StronglySorted_app_2; [|done|repeat constructor].
        intros x y Hx Hy. apply list_elem_of_singleton in Hy as ->.
        intros Heq. apply Hr; [done|]. rewrite Heq. unfold account, record. cbn. by apply Hl.
      - intros x [Hx|Hx]%elem_of_app; [by apply Hr|].
        apply list_elem_of_singleton in Hx as ->. intros _. cbn. lia.
      - intros x [Hx|Hx]%elem_of_app; [by apply Hs'|].
        apply list_elem_of_singleton in Hx as ->. right. unfold account, record. cbn.
        by apply Hl. }
    assert (Hup : ∀ o o' lg, (rank o ≤ rank o')%nat → I o lg → I o' lg).
    { intros o o' lg Hle (Hs & Hr & Hs'). split_and!; [done| |done].
      intros x Hx Hax. specialize (Hr x Hx Hax). lia. }
    assert (H0 : I OpDelete log).
    { split_and!; [done| |auto]. intros x Hx Hax. exfalso.
      apply (Hfresh x Hx). rewrite Hax. cbn. apply list_elem_of_here. }
    assert (Hdone : ∀ o lg, I o lg →
               StronglySorted inOrder lg
               ∧ ∀ x, x ∈ lg → x ∈ log ∨ account x ∈ ((accountID, transactions) :: rest).*1).
    { intros o lg (Hs & _ & Hs'). split; [done|]. intros x Hx.
      destruct (Hs' x Hx) as [?| ->]; [by left|]. right. cbn. apply list_elem_of_here. }
    destruct (writeAll W OpDelete _ _ w log) as [[r1 w1] log1] eqn:H1.
    apply (writeAll_keeps (I OpDelete)) in H1; [|done|apply Hstep; intros; apply Hacct; auto].
    destruct r1 as [e1|]; [injection Hrun as <- <- <-; by eapply Hdone|].
    destruct (writeAll W OpCreate _ _ w1 log1) as [[r2 w2] log2] eqn:H2.
    apply (writeAll_keeps (I OpCreate)) in H2;
      [|apply (Hup OpDelete); [cbn; lia|done]|apply Hstep; intros; apply Hacct; auto].
    destruct r2 as [e2|]; [injection Hrun as <- <- <-; by eapply Hdone|].
    destruct (writeAll W OpUpdate _ _ w2 log2) as [[r3 w3] log3] eqn:H3.
    apply (writeAll_keeps (I OpUpdate)) in H3;
      [|apply (Hup OpCreate); [cbn; lia|done]|apply Hstep; intros; apply Hacct; auto].
    destruct r3 as [e3|]; [injection Hrun as <- <- <-; by eapply Hdone|].
    destruct H3 as (Hs3 & _ & Hfrom).
    destruct (IH w3 log3) as [HS Hfrom']; [by eapply wellArranged_tail|done|done| |done|].
    + intros x Hx Hin. destruct (Hfrom x Hx) as [Hold|Hnew].
      * apply (Hfresh x Hold). cbn. by apply list_elem_of_further.
      * destruct Hwell as [Hnd _]. cbn in Hnd. apply NoDup_cons in Hnd as [Hnotin _].
        apply Hnotin. by rewrite <- Hnew.
    + split; [done|]. intros x Hx. destruct (Hfrom' x Hx) as [Hin3|Hrest].
      * destruct (Hfrom x Hin3) as [?| ->]; [by left|]. right. cbn. apply list_elem_of_here.
      * right. cbn. by apply list_elem_of_further.
Qed.

End Store.

End SyncFacts.

Module SyncRuns.
Import SyncModel SyncFacts.

(** Two fetched transactions of one account: A1, still pending, and A5,
    new; the table holds [Sample.mirror]. *)
Definition fetched : list Transaction :=
  [ {| ID := "A1"; AccountID := "acct"; Amount := 12.5%float; Name := "Coffee";
       MerchantName := "Cafe"; Pending := true; Date := "2026-10-30";
       Category := ["Food"]; Location_ := {| Address := "1 Main"; City := "St" |} |};
    {| ID := "A5"; AccountID := "acct"; Amount := 3%float; Name := "Tea";
       MerchantName := "Cafe"; Pending := false; Date := "2026-10-29";
       Category := ["Food"; "Drinks"; "Hot"; "Leaf"];
       Location_ := {| Address := "3 High"; City := "St" |} |} ].

Definition clock (w : unit) : GoTime.Time := Sample.now.
Definition succeed (t : Airtable.TransactionRecord) (w : unit) : option Plaid.error * unit :=
  (None, w).
Definition refuse (t : Airtable.TransactionRecord) (w : unit) : option Plaid.error * unit :=
  (Some (Plaid.OtherError "422 Unprocessable Entity"), w).

End SyncRuns.

Module SyncWrites.
Import SyncModel SyncFacts.

(** An account of the arranged map has a record in the input. *)
Lemma arranged_account_has_record (ts : list Airtable.TransactionRecord) accountID byID :
  Airtable.byAccountIDbyTransactionID ts !! accountID = Some byID →
  ∃ t, t ∈ ts ∧ Airtable.AccountID (Airtable.Fields t) = accountID.
Proof.
  revert byID. induction ts as [|t ts IH] using rev_ind; intros byID Hlk.
  - unfold Airtable.byAccountIDbyTransactionID in Hlk. cbn [fold_left] in Hlk.
    by rewrite lookup_empty in Hlk.
  - rewrite EngineMore.byAccountIDbyTransactionID_snoc in Hlk.
    destruct (decide (Airtable.AccountID (Airtable.Fields t) = accountID)) as [Heq|Hne].
    + exists t. split; [|done]. apply elem_of_app. right. apply list_elem_of_here.
    + rewrite lookup_insert_ne in Hlk by done.
      destruct (IH _ Hlk) as (t' & Hin & Hacct). exists t'. split; [|done].
      apply elem_of_app. by left.
Qed.

Lemma arranged_wellArranged (ts : list Airtable.TransactionRecord) :
  wellArranged (map_to_list (Airtable.byAccountIDbyTransactionID ts)).
Proof.
  split; [apply NoDup_fst_map_to_list|].
  intros accountID plaidTs id t Hin Hlk. apply elem_of_map_to_list in Hin.
  by destruct (AirtableFacts.byAccountIDbyTransactionID_arranged ts _ _ _ _ Hin Hlk).
Qed.

Section Store.
Variable W : Type.
Variable Now : W → GoTime.Time.
Variable Delete Create Update : Airtable.TransactionRecord → W → option Plaid.error * W.

(** X6.  [Sync] writes only to accounts the fetch returned transactions for:
    the rows of an account that is absent from the source are never
    deleted, created or updated. *)
Theorem sync_touches_source_accounts_only transactions airtableTransactions w out w' log x :
  Sync W Now Delete Create Update transactions airtableTransactions w = (out, w', log) →
  x ∈ log →
  ∃ t, t ∈ transactions ∧ AccountID t = account x.
Proof.
  unfold Sync. intros Hrun Hx.
  apply syncLoop_order in Hrun as [_ Hfrom].
  - destruct (Hfrom x Hx) as [Hnil|Hin]; [by apply elem_of_nil in Hnil|].
    apply list_elem_of_fmap in Hin as ([a p] & Ha & Hin). cbn in Ha. subst a.
    apply elem_of_map_to_list in Hin.
    destruct (arranged_account_has_record _ _ _ Hin) as (r & Hr & Hacct).
    apply list_elem_of_fmap in Hr as (t & -> & Ht). exists t. split; [done|].
    by rewrite <- Hacct.
  - apply arranged_wellArranged.
  - apply AirtableFacts.byAccountIDbyTransactionID_arranged.
  - constructor.
  - intros y Hy. by apply elem_of_nil in Hy.
Qed.

(** X7.  The calls [Sync] makes for one account come in the order deletes, then
    creates, then updates: no row of an account is deleted after one of
    that account was created or updated, none created after an update. *)
Theorem sync_writes_in_order transactions airtableTransactions w out w' log :
  Sync W Now Delete Create Update transactions airtableTransactions w = (out, w', log) →
  StronglySorted inOrder log.
Proof.
  unfold Sync. intros Hrun. apply syncLoop_order in Hrun as [Hsorted _]; [done|..].
  - apply arranged_wellArranged.
  - apply AirtableFacts.byAccountIDbyTransactionID_arranged.
  - constructor.
  - intros y Hy. by apply elem_of_nil in Hy.
Qed.

End Store.

Import SyncRuns.

Definition rec3 := Sample.record "rec3" "A3" "acct" false "2026-10-26" "".
Definition rec4 := Sample.record "rec4" "A4" "acct" false "2026-10-12" "2 Side St".

Example sync_run :
  ∃ created updated,
    Sync unit clock succeed succeed succeed fetched Sample.mirror tt
    = (Ok None, tt,
       [(OpDelete, rec3, None); (OpDelete, rec4, None);
        (OpCreate, created, None); (OpUpdate, updated, None)]).
Proof. eexists _, _. vm_compute. reflexivity. Qed.

Example sync_run_create_refused :
  ∃ created,
    Sync unit clock succeed refuse succeed fetched Sample.mirror tt
    = (Ok (Some (Plaid.OtherError "422 Unprocessable Entity")), tt,
       [(OpDelete, rec3, None); (OpDelete, rec4, None);
        (OpCreate, created, Some (Plaid.OtherError "422 Unprocessable Entity"))]).
Proof. eexists. vm_compute. reflexivity. Qed.

Lemma first_failed_write_ends_sync_witness :
  ∃ created,
    3%nat = length [(OpDelete, rec3, @None Plaid.error); (OpDelete, rec4, None);
                    (OpCreate, created, Some (Plaid.OtherError "422 Unprocessable Entity"))]
    ∧ Ok (Some (Plaid.OtherError "422 Unprocessable Entity"))
      = Ok (Some (Plaid.OtherError "422 Unprocessable Entity")).
Proof.
  destruct sync_run_create_refused as [created Hrun]. exists created.
  exact (first_failed_write_ends_sync unit clock succeed refuse succeed fetched Sample.mirror
           tt _ _ _ 2%nat _ _ _ Hrun eq_refl).
Defined.

Lemma sync_touches_source_accounts_only_witness :
  ∃ t, t ∈ fetched ∧ AccountID t = account (OpDelete, rec3, None).
Proof.
  destruct sync_run as (created & updated & Hrun).
  apply (sync_touches_source_accounts_only unit clock succeed succeed succeed fetched
           Sample.mirror tt _ _ _ _ Hrun).
  apply list_elem_of_here.
Defined.

Lemma sync_writes_in_order_witness :
  ∃ created updated,
    StronglySorted inOrder
      [(OpDelete, rec3, None); (OpDelete, rec4, None);
       (OpCreate, created, None); (OpUpdate, updated, None)].
Proof.
  destruct sync_run as (created & updated & Hrun). exists created, updated.
  exact (sync_writes_in_order unit clock succeed succeed succeed fetched Sample.mirror
           tt _ _ _ Hrun).
Defined.

End SyncWrites.

(* ===================================================================== *)
(** ** What [SyncAccounts] creates *)
(* ===================================================================== *)

Module AccountsFacts.
Import Accounts.

(** The account is not among those listed. *)
Definition missing (listed : list AccountRecord) (account : AccountRecord) : Prop :=
  AccountID (Fields account) ∉ (λ a, AccountID (Fields a)) <$> listed.

#[local] Instance missing_dec listed account : Decision (missing listed account).
Proof. unfold missing. apply _. Defined.

Definition succeeded (account : AccountRecord) : created := (account, None).

(** The calls a run made: a successful [Create] for each missing account
    in the order fetched, up to and including the first that failed. *)
Definition createsOf (res : option Plaid.error) (todo : list AccountRecord)
    (calls : list created) : Prop :=
  match res with
  | None => calls = succeeded <$> todo
  | Some err =>
      ∃ done account rest,
        todo = done ++ account :: rest
        ∧ calls = (succeeded <$> done) ++ [(account, Some err)]
  end.

Section Store.
Variable W : Type.
Variable List : W → (list AccountRecord + Plaid.error) * W.
Variable Create : AccountRecord → W → option Plaid.error * W.

Lemma createMissing_calls (listed : list AccountRecord) l w log res w' log' :
  createMissing W Create (list_to_set ((λ a, AccountID (Fields a)) <$> listed)) l w log
  = (res, w', log') →
  ∃ calls, log' = log ++ calls ∧ createsOf res (filter (missing listed) l) calls.
Proof.
  revert w log. induction l as [|account l IH]; intros w log Hrun; cbn [createMissing] in Hrun.
  - injection Hrun as <- <- <-. exists []. by rewrite app_nil_r.
  - rewrite filter_cons.
    destruct (decide (missing listed account)) as [Hmiss|Hlisted].
    + rewrite bool_decide_eq_false_2 in Hrun
        by (unfold missing in Hmiss; by rewrite elem_of_list_to_set).
      destruct (Create account w) as [[err|] w1].
      * injection Hrun as <- <- <-. exists [(account, Some err)]. split; [done|].
        exists [], account, (filter (missing listed) l). done.
      * apply IH in Hrun as (calls & -> & Hcalls).
        exists ((account, None) :: calls). split; [by rewrite <- app_assoc|].
        destruct res as [err|]; cbn in *.
        -- destruct Hcalls as (done' & a & rest & -> & ->).
           exists (account :: done'), a, rest. done.
        -- by rewrite Hcalls.
    + rewrite bool_decide_eq_true_2 in Hrun.
      * exact (IH _ _ Hrun).
      * unfold missing in Hlisted. rewrite elem_of_list_to_set.
        by destruct (decide (AccountID (Fields account)
                             ∈ (λ a, AccountID (Fields a)) <$> listed)).
Qed.

(** X8.  [SyncAccounts] creates exactly the fetched accounts whose id the table
    does not list yet, in the order fetched and one call each, never one
    that is listed; the first failing call ends the run with its error,
    the accounts after it are not created. *)
Theorem SyncAccounts_creates_the_missing accounts w listed w1 res w' log :
  List w = (inl listed, w1) →
  SyncAccounts W List Create accounts w = (res, w', log) →
  createsOf res (filter (missing listed) (toRecord <$> accounts)) log.
Proof.
  intros Hlist Hrun. unfold SyncAccounts in Hrun. rewrite Hlist in Hrun.
  apply createMissing_calls in Hrun as (calls & -> & Hcalls). exact Hcalls.
Qed.

End Store.

Definition checking : PlaidV0.Account :=
  {| PlaidV0.AccountID := "acct-1"; PlaidV0.Name := "Checking"; PlaidV0.OfficialName := "" |}.
Definition savings : PlaidV0.Account :=
  {| PlaidV0.AccountID := "acct-2"; PlaidV0.Name := "Savings";
     PlaidV0.OfficialName := "High Yield Savings" |}.
Definition card : PlaidV0.Account :=
  {| PlaidV0.AccountID := "acct-3"; PlaidV0.Name := "Card"; PlaidV0.OfficialName := "" |}.

(** A table that lists the checking account and refuses the card. *)
Definition listChecking (w : unit) : (list AccountRecord + Plaid.error) * unit :=
  (inl [toRecord checking], w).
Definition createButCard (a : AccountRecord) (w : unit) : option Plaid.error * unit :=
  (if bool_decide (AccountID (Fields a) = "acct-3"%string)
   then Some (Plaid.OtherError "422 Unprocessable Entity") else None, w).

Example SyncAccounts_run :
  SyncAccounts unit listChecking createButCard [checking; savings; card; savings] tt
  = (Some (Plaid.OtherError "422 Unprocessable Entity"), tt,
     [(toRecord savings, None);
      (toRecord card, Some (Plaid.OtherError "422 Unprocessable Entity"))]).
Proof. vm_compute. reflexivity. Qed.

Lemma SyncAccounts_creates_the_missing_witness :
  createsOf (Some (Plaid.OtherError "422 Unprocessable Entity"))
    (filter (missing [toRecord checking]) (toRecord <$> [checking; savings; card; savings]))
    [(toRecord savings, None);
     (toRecord card, Some (Plaid.OtherError "422 Unprocessable Entity"))].
Proof.
  exact (SyncAccounts_creates_the_missing unit listChecking createButCard
           [checking; savings; card; savings] tt [toRecord checking] tt _ _ _
           eq_refl SyncAccounts_run).
Defined.

End AccountsFacts.

(* ===================================================================== *)
(** ** A mirror that is in step with the source *)
(* ===================================================================== *)

Module SyncSettled.
Import SyncModel.

(** The mirror row [e] stands for the fetched transaction [t]. *)
Definition sameKey (t : Transaction) (e : Airtable.TransactionRecord) : Prop :=
  Airtable.AccountID (Airtable.Fields e) = AccountID t
  ∧ Airtable.PlaidID (Airtable.Fields e) = ID t.

(** The two fields [updateAccount] compares agree. *)
Definition sameState (t : Transaction) (e : Airtable.TransactionRecord) : Prop :=
  Airtable.Pending (Airtable.Fields e) = Pending t
  ∧ Airtable.Address (Airtable.Fields e)
    = (Address (Location_ t) ++ " " ++ City (Location_ t))%string.

(** The mirror is in step with the source: every fetched transaction has a
    row, every row of a fetched transaction agrees with it on the Pending
    flag and the address, and an account that was fetched has no row of a
    transaction that was not. *)
Definition settled (transactions : list Transaction)
    (airtableTransactions : list Airtable.TransactionRecord) : Prop :=
  Forall (λ t, Exists (sameKey t) airtableTransactions
               ∧ Forall (λ e, sameKey t e → sameState t e) airtableTransactions)
         transactions
  ∧ Forall (λ e, Exists (λ t, AccountID t = Airtable.AccountID (Airtable.Fields e)) transactions
                 → Exists (λ t, sameKey t e) transactions)
           airtableTransactions.

#[local] Instance settled_dec transactions airtableTransactions :
  Decision (settled transactions airtableTransactions).
Proof. unfold settled, sameKey, sameState. apply _. Defined.

(** What is stored under an account and a Plaid id is a record of the input
    with these two ids. *)
Lemma stored_is_input (ts : list Airtable.TransactionRecord) accountID plaidID t :
  EngineMore.stored (Airtable.byAccountIDbyTransactionID ts) accountID plaidID = Some t →
  t ∈ ts ∧ EngineMore.hasKey accountID plaidID t.
Proof.
  induction ts as [|t' ts IH] using rev_ind.
  - unfold EngineMore.stored, Airtable.byAccountIDbyTransactionID. cbn [fold_left].
    by rewrite lookup_empty.
  - rewrite EngineMore.byAccountIDbyTransactionID_snoc, EngineMore.stored_step.
    destruct (decide (EngineMore.hasKey accountID plaidID t')) as [Hk|Hk].
    + intros [= <-]. split; [|done]. apply elem_of_app. right. apply list_elem_of_here.
    + intros Hst. destruct (IH Hst) as [Hin Hkey]. split; [|done].
      apply elem_of_app. by left.
Qed.

(** A record of the input has something stored under its two ids. *)
Lemma input_is_stored (ts : list Airtable.TransactionRecord) accountID plaidID t :
  t ∈ ts → EngineMore.hasKey accountID plaidID t →
  is_Some (EngineMore.stored (Airtable.byAccountIDbyTransactionID ts) accountID plaidID).
Proof.
  induction ts as [|t' ts IH] using rev_ind; intros Hin Hkey.
  - by apply elem_of_nil in Hin.
  - rewrite EngineMore.byAccountIDbyTransactionID_snoc, EngineMore.stored_step.
    destruct (decide (EngineMore.hasKey accountID plaidID t')) as [Hk|Hk]; [by eexists|].
    apply elem_of_app in Hin as [Hin|Hin]; [by apply IH|].
    apply list_elem_of_singleton in Hin. by subst.
Qed.

(** [updateAccount] on two maps with the same keys and no changed record:
    the empty plan, and no date is parsed. *)
Lemma updateAccount_in_step now (plaidTs airtableTs : gmap string Airtable.TransactionRecord) :
  (∀ id e, airtableTs !! id = Some e → is_Some (plaidTs !! id)) →
  (∀ id t, plaidTs !! id = Some t →
     ∃ e, airtableTs !! id = Some e ∧ AirtableFacts.changed e t = false) →
  Airtable.updateAccount now plaidTs airtableTs
  = Ok {| Airtable.ToCreate := []; Airtable.ToDelete := []; Airtable.ToUpdate := [] |}.
Proof.
  intros Hmirror Hsource.
  destruct (AirtableFacts.updateAccount_returns now plaidTs airtableTs) as [u Hu].
  { intros (id & t & Ha & Hp & _). destruct (Hmirror _ _ Ha) as [t' Ht']. congruence. }
  rewrite Hu. f_equal.
  assert (Hc : Airtable.ToCreate u = []).
  { apply elem_of_nil_inv. intros r Hr.
    apply (AirtableFacts.in_ToCreate _ _ _ _ Hu) in Hr as (id & Hp & Ha).
    destruct (Hsource _ _ Hp) as (e & He & _). congruence. }
  assert (Hd : Airtable.ToDelete u = []).
  { apply elem_of_nil_inv. intros r Hr.
    apply (AirtableFacts.in_ToDelete _ _ _ _ Hu) in Hr as (id & tt & Ha & Hp & _).
    destruct (Hmirror _ _ Ha) as [t' Ht']. congruence. }
  assert (Hupd : Airtable.ToUpdate u = []).
  { apply elem_of_nil_inv. intros r Hr.
    apply (AirtableFacts.in_ToUpdate _ _ _ _ Hu) in Hr as (id & t & e & Hp & Ha & Hch & _).
    destruct (Hsource _ _ Hp) as (e' & He' & Hsame). congruence. }
  destruct u as [c d up]. cbn in Hc, Hd, Hupd. by subst.
Qed.

Section Store.
Variable W : Type.
Variable Now : W → GoTime.Time.
Variable Delete Create Update : Airtable.TransactionRecord → W → option Plaid.error * W.

(** Accounts whose plans are all empty: the loop makes no call. *)
Lemma syncLoop_idle accounts airtableArranged w log :
  (∀ accountID transactions, (accountID, transactions) ∈ accounts →
     Airtable.updateAccount (Now w) transactions (default ∅ (airtableArranged !! accountID))
     = Ok {| Airtable.ToCreate := []; Airtable.ToDelete := []; Airtable.ToUpdate := [] |}) →
  syncLoop W Now Delete Create Update accounts airtableArranged w log = (Ok None, w, log).
Proof.
  induction accounts as [|[accountID transactions] rest IH]; intros Hall; [done|].
  cbn [syncLoop]. rewrite (Hall accountID transactions (list_elem_of_here _ _)).
  cbn [Airtable.ToCreate Airtable.ToDelete Airtable.ToUpdate writeAll].
  apply IH. intros a ts Hin. apply Hall. by apply list_elem_of_further.
Qed.

(** X19.  A mirror in step with the source is left alone: when every fetched
    transaction has a row, every such row agrees with it on the Pending
    flag and the address, and no fetched account has a row of a
    transaction that was not fetched, [Sync] returns nil without a single
    call on the table and without parsing a date.  Rows of accounts that
    were not fetched, and differences in any other field, do not matter. *)
Theorem settled_mirror_is_left_alone transactions airtableTransactions w :
  settled transactions airtableTransactions →
  Sync W Now Delete Create Update transactions airtableTransactions w = (Ok None, w, []).
Proof.
  intros [Hsrc Hmir]. unfold Sync. apply syncLoop_idle.
  intros accountID plaidTs Hin. apply elem_of_map_to_list in Hin.
  rewrite Forall_forall in Hsrc. rewrite Forall_forall in Hmir.
  apply updateAccount_in_step.
  - intros pid e He.
    destruct (Airtable.byAccountIDbyTransactionID airtableTransactions !! accountID)
      as [byID|] eqn:Hacct; cbn [from_option id] in He; [|by rewrite lookup_empty in He].
    destruct (stored_is_input airtableTransactions accountID pid e) as [Hine [Ha Hp]].
    { unfold EngineMore.stored. by rewrite Hacct. }
    destruct (SyncWrites.arranged_account_has_record _ _ _ Hin) as (r & Hr & Hracct).
    apply list_elem_of_fmap in Hr as (t & -> & Ht).
    destruct (proj1 (Exists_exists _ _) (Hmir e Hine
                (proj2 (Exists_exists _ _) (ex_intro _ t (conj Ht (eq_trans Hracct (eq_sym Ha)))))))
      as (t' & Ht' & Hk1 & Hk2).
    destruct (input_is_stored (toRecord <$> transactions) accountID pid (toRecord t'))
      as [r' Hr'].
    { apply list_elem_of_fmap. by exists t'. }
    { split; cbn; congruence. }
    unfold EngineMore.stored in Hr'. rewrite Hin in Hr'. by exists r'.
  - intros pid r Hr.
    destruct (stored_is_input (toRecord <$> transactions) accountID pid r) as [Hinr [Ha Hp]].
    { unfold EngineMore.stored. by rewrite Hin. }
    apply list_elem_of_fmap in Hinr as (t & -> & Ht). cbn in Ha, Hp.
    destruct (Hsrc t Ht) as [Hex Hall].
    apply Exists_exists in Hex as (e0 & He0 & Hk1 & Hk2).
    destruct (input_is_stored airtableTransactions accountID pid e0) as [e He];
      [done|split; congruence|].
    exists e. split.
    + unfold EngineMore.stored in He.
      by destruct (Airtable.byAccountIDbyTransactionID airtableTransactions !! accountID).
    + destruct (stored_is_input _ _ _ _ He) as [Hine [Hea Hep]].
      rewrite Forall_forall in Hall.
      destruct (Hall e Hine) as [Hpend Haddr]; [split; congruence|].
      unfold AirtableFacts.changed. cbn.
      rewrite !bool_decide_eq_false_2; [done| |]; intros Hne; by apply Hne.
Qed.

End Store.

(** The table after the run of [SyncWrites.sync_run]: the row of A1 is
    pending again, A3 and A4 are gone, A5 has a row; the row of another
    account, A9, is not in the source. *)
Definition mirrorAfter : list Airtable.TransactionRecord :=
  [ Sample.record "rec1" "A1" "acct" true "2026-10-30" "1 Main St";
    Sample.record "rec2" "A9" "other" false "26/10/2026" "";
    Sample.record "rec5" "A5" "acct" false "2026-10-29" "3 High St" ].

Lemma settled_mirror_is_left_alone_witness :
  Sync unit SyncRuns.clock SyncRuns.refuse SyncRuns.refuse SyncRuns.refuse
    SyncRuns.fetched mirrorAfter tt
  = (Ok None, tt, []).
Proof.
  apply (settled_mirror_is_left_alone unit SyncRuns.clock SyncRuns.refuse SyncRuns.refuse
           SyncRuns.refuse SyncRuns.fetched mirrorAfter tt).
  apply (bool_decide_unpack _). vm_compute. exact I.
Defined.

End SyncSettled.
